(** * PyOctaveBand: octave-band frequency generation and SPL pipeline

    A shallow embedding of [PyOctave.py] and the theorems that settle the
    properties stated for it.

    Numeric model.  Python and NumPy floats are embedded as real numbers
    extended with the three IEEE special values the program can produce
    ([inf], [-inf], [nan]).  Finite arithmetic is exact: rounding error,
    overflow and the sign of zero are not modelled.  The special values
    arise where NumPy leaves the reals ([np.log] at zero or below, a
    division by zero) and propagate as IEEE 754 prescribes. *)

From Stdlib Require Import Reals Lra Lia ZArith ROrderedType List.
From stdpp Require Import base option list gmap.

Local Open Scope R_scope.

(** ** Outcomes of a Python call *)

Inductive pyexn : Type :=
  | ZeroDivisionError
  | KeyError (key : Z)
  | IndexError
  | ValueError.

(** A call returns a value, raises, or has not finished when the fuel
    given to its [while] loop is used up. *)
Inductive outcome (A : Type) : Type :=
  | Ret (a : A)
  | Raise (e : pyexn)
  | Timeout.

Arguments Ret {A} a.
Arguments Raise {A} e.
Arguments Timeout {A}.

#[global] Instance outcome_ret : MRet outcome := fun A a => Ret a.

#[global] Instance outcome_bind : MBind outcome := fun A B k m =>
  match m with
  | Ret a => k a
  | Raise e => Raise e
  | Timeout => Timeout
  end.

(** ** Floats *)

Inductive npfloat : Type :=
  | Fin (r : R)
  | PInf
  | NInf
  | NaN.

Definition Rltb (a b : R) : bool :=
  match Rcompare a b with Lt => true | _ => false end.

Definition Reqb (a b : R) : bool :=
  match Rcompare a b with Eq => true | _ => false end.

Definition fneg (a : npfloat) : npfloat :=
  match a with
  | Fin r => Fin (- r)
  | PInf => NInf
  | NInf => PInf
  | NaN => NaN
  end.

Definition fadd (a b : npfloat) : npfloat :=
  match a, b with
  | NaN, _ | _, NaN => NaN
  | Fin x, Fin y => Fin (x + y)
  | PInf, NInf | NInf, PInf => NaN
  | PInf, _ | _, PInf => PInf
  | NInf, _ | _, NInf => NInf
  end.

Definition fsub (a b : npfloat) : npfloat := fadd a (fneg b).

(** The infinity of the sign of [r], and [nan] for zero. *)
Definition inf_of_sign (r : R) : npfloat :=
  match Rcompare r 0 with
  | Gt => PInf
  | Lt => NInf
  | Eq => NaN
  end.

Definition fmul (a b : npfloat) : npfloat :=
  match a, b with
  | NaN, _ | _, NaN => NaN
  | Fin x, Fin y => Fin (x * y)
  | Fin x, PInf | PInf, Fin x => inf_of_sign x
  | Fin x, NInf | NInf, Fin x => inf_of_sign (- x)
  | PInf, PInf | NInf, NInf => PInf
  | PInf, NInf | NInf, PInf => NInf
  end.

(** NumPy division: a zero divisor gives an infinity or [nan] (with a
    warning), it does not raise. *)
Definition fdiv (a b : npfloat) : npfloat :=
  match a, b with
  | NaN, _ | _, NaN => NaN
  | Fin x, Fin y => if Reqb y 0 then inf_of_sign x else Fin (x / y)
  | Fin _, (PInf | NInf) => Fin 0
  | (PInf | NInf), (PInf | NInf) => NaN
  | PInf, Fin y => if Rltb y 0 then NInf else PInf
  | NInf, Fin y => if Rltb y 0 then PInf else NInf
  end.

(** [a < b] on floats: false as soon as one side is [nan]. *)
Definition fltb (a b : npfloat) : bool :=
  match a, b with
  | NaN, _ | _, NaN => false
  | Fin x, Fin y => Rltb x y
  | NInf, (Fin _ | PInf) => true
  | Fin _, PInf => true
  | _, _ => false
  end.

Definition fgtb (a b : npfloat) : bool := fltb b a.

(** [g ** y] for a positive Python float [g] and a NumPy exponent.  The
    program only ever raises the octave ratio [G] to a power; other
    bases are outside the model and yield [nan]. *)
Definition fpow (g : R) (y : npfloat) : npfloat :=
  if Reqb g 1 then Fin 1
  else if Rltb 1 g then
    match y with
    | Fin e => Fin (Rpower g e)
    | PInf => PInf
    | NInf => Fin 0
    | NaN => NaN
    end
  else if Rltb 0 g then
    match y with
    | Fin e => Fin (Rpower g e)
    | PInf => Fin 0
    | NInf => PInf
    | NaN => NaN
    end
  else NaN.

(** [np.log] *)
Definition np_log (a : npfloat) : npfloat :=
  match a with
  | Fin r =>
      match Rcompare r 0 with
      | Gt => Fin (ln r)
      | Eq => NInf
      | Lt => NaN
      end
  | PInf => PInf
  | NInf | NaN => NaN
  end.

(** [np.log10] *)
Definition np_log10 (a : npfloat) : npfloat :=
  match a with
  | Fin r =>
      match Rcompare r 0 with
      | Gt => Fin (ln r / ln 10)
      | Eq => NInf
      | Lt => NaN
      end
  | PInf => PInf
  | NInf | NaN => NaN
  end.

(** Rounding to the nearest integer, ties to the even one. *)
Definition round_half_even (r : R) : Z :=
  let n := Zfloor r in
  match Rcompare (r - IZR n) (1 / 2) with
  | Lt => n
  | Gt => (n + 1)%Z
  | Eq => if Z.even n then n else (n + 1)%Z
  end.

(** [np.round] *)
Definition np_round (a : npfloat) : npfloat :=
  match a with
  | Fin r => Fin (IZR (round_half_even r))
  | _ => a
  end.

(** [np.sqrt] *)
Definition np_sqrt (a : npfloat) : npfloat :=
  match a with
  | Fin r => if Rltb r 0 then NaN else Fin (sqrt r)
  | PInf => PInf
  | NInf | NaN => NaN
  end.

(** Python's [a % m] on numbers: the remainder has the sign of [m]. *)
Definition py_mod (a m : R) : R := a - m * IZR (Zfloor (a / m)).

(** Truth value of a number: anything but zero. *)
Definition py_truthy (a : R) : bool := negb (Reqb a 0).

(** Python's true division of two numbers raises on a zero divisor. *)
Definition py_div (a b : R) : outcome R :=
  if Reqb b 0 then Raise ZeroDivisionError else Ret (a / b).

(** ** Band frequencies (ANSI S1.11-2004, IEC 61260-1-2014) *)

(** Octave ratio [G = 10 ** (3 / 10)] and reference frequency. *)
Definition G : R := Rpower 10 (3 / 10).
Definition fr : R := 1000.

Definition _initindex (f fr G b : R) : outcome npfloat :=
  q ← py_div f fr;
  if py_truthy (py_mod b 2) then
    mret (np_round
            (fdiv (fadd (fmul (Fin b) (np_log (Fin q)))
                        (fmul (Fin 30) (np_log (Fin G))))
                  (np_log (Fin G))))
  else
    mret (np_round
            (fdiv (fadd (fmul (Fin (2 * b)) (np_log (Fin q)))
                        (fmul (Fin 59) (np_log (Fin G))))
                  (fmul (Fin 2) (np_log (Fin G))))).

Definition _ratio (G : R) (x : npfloat) (b : R) : npfloat :=
  if py_truthy (py_mod b 2) then
    fpow G (fdiv (fsub x (Fin 30)) (Fin b))
  else
    fpow G (fdiv (fsub (fmul (Fin 2) x) (Fin 59)) (Fin (2 * b))).

(** Band-edge ratio [G ** (1 / (2 * b))], a power of Python floats with
    a positive base. *)
Definition _bandedge (G b : R) : outcome R :=
  e ← py_div 1 (2 * b);
  mret (Rpower G e).

(** The [while] loop of [getANSIFrequencies].  [freq_x] is the frequency
    tested by the loop condition (the sentinel [0] on entry), [freq] the
    frequencies stored so far.  Each [S] of fuel pays for one run of the
    body. *)
Fixpoint ansi_loop (fuel : nat) (b f_max : R)
    (x freq_x : npfloat) (freq : list npfloat) : outcome (list npfloat) :=
  E ← _bandedge G b;
  if fltb (fmul freq_x (Fin E)) (Fin f_max) then
    match fuel with
    | O => Timeout
    | S fuel' =>
        let x := fadd x (Fin 1) in
        let freq_x := fmul (_ratio G x b) (Fin fr) in
        ansi_loop fuel' b f_max x freq_x (freq ++ [freq_x])
    end
  else mret freq.

(** [limits] is the two-element list [[f_min, f_max]]; [None] is the
    default argument.  The three results are modelled as lists also in
    the case where the loop body never runs (Python then returns the
    scalars themselves). *)
Definition getANSIFrequencies (fuel : nat) (fraction : R)
    (limits : option (R * R))
  : outcome (list npfloat * list npfloat * list npfloat) :=
  let limits := default (12, 20000) limits in
  x ← _initindex (fst limits) fr G fraction;
  let freq := [fmul (_ratio G x fraction) (Fin fr)] in
  freq ← ansi_loop fuel fraction (snd limits) x (Fin 0) freq;
  E ← _bandedge G fraction;
  let freq_d := map (fun v => fdiv v (Fin E)) freq in
  let freq_u := map (fun v => fmul v (Fin E)) freq in
  mret (freq, freq_d, freq_u).

(** ** Normalized frequencies (IEC 61260-1-2014) *)

Definition _thirdOctave : list R :=
  [12.5; 16; 20; 25; 31.5; 40; 50; 63; 80; 100; 125; 160; 200; 250; 315;
   400; 500; 630; 800; 1000; 1250; 1600; 2000; 2500; 3150; 4000; 5000;
   6300; 8000; 10000; 12500; 16000; 20000].

Definition _oneOctave : list R :=
  [16; 31.5; 63; 125; 250; 500; 1000; 2000; 4000; 8000; 16000].

(** [predefined[fraction]]: a dictionary lookup, which raises [KeyError]
    on a key the dictionary does not hold. *)
Definition normalizedFreq (fraction : Z) : outcome (list R) :=
  let predefined : gmap Z (list R) :=
    {[ 1%Z := _oneOctave; 3%Z := _thirdOctave ]} in
  match predefined !! fraction with
  | Some l => Ret l
  | None => Raise (KeyError fraction)
  end.

(** ** Removing the bands above the Nyquist frequency *)

(** [np.where(mask)[0]]: the positions at which [mask] holds, ascending. *)
Fixpoint where_from (i : nat) (mask : list bool) : list nat :=
  match mask with
  | [] => []
  | m :: mask' =>
      if m then i :: where_from (S i) mask' else where_from (S i) mask'
  end.

Definition np_where (mask : list bool) : list nat := where_from 0 mask.

(** The builtin [any] on a sequence of integers: some element is
    non-zero. *)
Definition py_any (l : list nat) : bool :=
  existsb (fun i => negb (Nat.eqb i 0)) l.

Fixpoint delete_from {A : Type} (i : nat) (arr : list A) (idx : list nat)
  : list A :=
  match arr with
  | [] => []
  | a :: arr' =>
      if bool_decide (i ∈ idx) then delete_from (S i) arr' idx
      else a :: delete_from (S i) arr' idx
  end.

(** [np.delete(arr, idx)] for an array of positions: an out-of-range
    position raises. *)
Definition np_delete {A : Type} (arr : list A) (idx : list nat)
  : outcome (list A) :=
  if forallb (fun i => Nat.ltb i (length arr)) idx
  then Ret (delete_from 0 arr idx)
  else Raise IndexError.

(** The warning printed when bands are removed is console output and is
    not part of the returned value. *)
Definition _deleteOuters (freq freq_d freq_u : list npfloat) (fs : R)
  : outcome (list npfloat * list npfloat * list npfloat) :=
  let idx := np_where (map (fun u => fgtb u (Fin (fs / 2))) freq_u) in
  if py_any idx then
    freq ← np_delete freq idx;
    freq_d ← np_delete freq_d idx;
    freq_u ← np_delete freq_u idx;
    mret (freq, freq_d, freq_u)
  else mret (freq, freq_d, freq_u).

Definition _genfreqs (fuel : nat) (limits : option (R * R))
    (fraction fs : R)
  : outcome (list npfloat * list npfloat * list npfloat) :=
  '(freq, freq_d, freq_u) ← getANSIFrequencies fuel fraction limits;
  _deleteOuters freq freq_d freq_u fs.

(** ** Downsampling factors *)

(** Truncation toward zero. *)
Definition Ztrunc (r : R) : Z := if Rltb r 0 then Zceil r else Zfloor r.

Definition int64_min : Z := (- 2 ^ 63)%Z.

(** [.astype('int')]: a finite value is truncated toward zero (the
    result is taken to fit the integer type); for [nan] and the
    infinities the cast stores the least 64-bit integer. *)
Definition astype_int (a : npfloat) : Z :=
  match a with
  | Fin r => Ztrunc r
  | _ => int64_min
  end.

(** The clamping loop [for ii in range(len(factor))], updating the array
    in place. *)
Definition clamp_loop (factor : list Z) : list Z :=
  foldl (fun factor ii =>
           match factor !! ii with
           | Some v => <[ii := Z.max (Z.min v 50) 1]> factor
           | None => factor
           end)
        factor (seq 0 (length factor)).

Definition _downsamplingfactor (freq : list npfloat) (fs : R) : list Z :=
  let factor := map (fun f => astype_int (fdiv (Fin (fs / 2)) f)) freq in
  clamp_loop factor.

(** ** Filter bank and sound pressure levels *)

(** Second-order sections: one row of six coefficients per section. *)
Definition sos_t : Type := list (list npfloat).

(** The SciPy primitives the program calls.  Each one returns a value
    or raises (for instance [signal.butter] on a corner frequency
    outside (0, 1), or [signal.decimate] on a signal shorter than its
    filter padding). *)
Class SignalLib : Type := {
  (** [signal.butter(N, Wn=[low, high], btype='bandpass', output='sos')] *)
  butter : Z -> npfloat -> npfloat -> pyexn + sos_t;
  (** [signal.decimate(x, q)] *)
  decimate : list npfloat -> Z -> pyexn + list npfloat;
  (** [signal.sosfilt(sos, x)] *)
  sosfilt : sos_t -> list npfloat -> pyexn + list npfloat;
}.

(** Calling a primitive. *)
Definition call {A : Type} (r : pyexn + A) : outcome A :=
  match r with
  | inl e => Raise e
  | inr a => Ret a
  end.

(** [l[i]] and [l[i] = v] on a list or array. *)
Definition py_getitem {A : Type} (l : list A) (i : nat) : outcome A :=
  match l !! i with
  | Some v => Ret v
  | None => Raise IndexError
  end.

Definition py_setitem {A : Type} (l : list A) (i : nat) (v : A)
  : outcome (list A) :=
  if Nat.ltb i (length l) then Ret (<[i := v]> l) else Raise IndexError.

(** [np.sum], [np.mean] and [np.std] (population standard deviation). *)
Definition np_sum (l : list npfloat) : npfloat := foldl fadd (Fin 0) l.

Definition np_mean (l : list npfloat) : npfloat :=
  fdiv (np_sum l) (Fin (INR (length l))).

Definition np_std (y : list npfloat) : npfloat :=
  let m := np_mean y in
  np_sqrt (np_mean (map (fun v => fmul (fsub v m) (fsub v m)) y)).

(** The level stored for a filtered band:
    [20 * np.log10(np.std(y) / 2e-5)]. *)
Definition spl_of (y : list npfloat) : npfloat :=
  fmul (Fin 20) (np_log10 (fdiv (np_std y) (Fin 2e-5))).

Section Pipeline.
Context `{SignalLib}.

(** The loop of [_butterSOSfilter] over
    [enumerate(zip(freq_d, freq_u))]. *)
Fixpoint butter_loop (idx : nat) (edges : list (npfloat * npfloat))
    (fs : R) (order : Z) (factor : list Z) (sos : list sos_t)
  : outcome (list sos_t) :=
  match edges with
  | [] => mret sos
  | (lower, upper) :: edges' =>
      q ← py_getitem factor idx;
      let Fsd := fdiv (Fin fs) (Fin (IZR q)) in
      s ← call (butter order (fdiv lower (fdiv Fsd (Fin 2)))
                             (fdiv upper (fdiv Fsd (Fin 2))));
      sos ← py_setitem sos idx s;
      butter_loop (S idx) edges' fs order factor sos
  end.

(** The optional plot of the filter responses ([show]) is not
    modelled. *)
Definition _butterSOSfilter (freq freq_d freq_u : list npfloat) (fs : R)
    (order : Z) (factor : list Z) : outcome (list sos_t) :=
  let sos := replicate (length freq) ([[]] : sos_t) in
  butter_loop 0 (zip freq_d freq_u) fs order factor sos.

(** The loop [for jj in range(len(freq))] of [octaveFilter]. *)
Fixpoint spl_loop (x : list npfloat) (factor : list Z)
    (sos : list sos_t) (jjs : list nat) (spl : list npfloat)
  : outcome (list npfloat) :=
  match jjs with
  | [] => mret spl
  | jj :: jjs' =>
      q ← py_getitem factor jj;
      sd ← call (decimate x q);
      s ← py_getitem sos jj;
      y ← call (sosfilt s sd);
      spl ← py_setitem spl jj (spl_of y);
      spl_loop x factor sos jjs' spl
  end.

(** The signal arrives as a list of samples ([_typesignal] turns an
    array or a tuple into one). *)
Definition _typesignal (x : list npfloat) : list npfloat := x.

Definition octaveFilter (fuel : nat) (x : list npfloat) (fs fraction : R)
    (order : Z) (limits : option (R * R))
  : outcome (list npfloat * list npfloat) :=
  let limits := default (12, 20000) limits in
  let x := _typesignal x in
  '(freq, freq_d, freq_u) ← _genfreqs fuel (Some limits) fraction fs;
  let factor := _downsamplingfactor freq_u fs in
  sos ← _butterSOSfilter freq freq_d freq_u fs order factor;
  let spl := replicate (length freq) (Fin 0) in
  spl ← spl_loop x factor sos (seq 0 (length freq)) spl;
  mret (spl, freq).
End Pipeline.

(** An implementation of the primitives that neither decimates nor
    filters; it shows that the assumptions made on the primitives in the
    theorems can be met. *)
Definition passthrough_lib : SignalLib := {|
  butter := fun _ _ _ => inr [[]];
  decimate := fun x _ =>
    match x with
    | [] => inl ValueError
    | _ :: _ => inr x
    end;
  sosfilt := fun _ sd => inr sd;
|}.

(** The same, with the check [signal.butter] makes on its corner
    frequencies, [0 < low] and [high < 1]. *)
Definition checking_lib : SignalLib := {|
  butter := fun _ low high =>
    if fltb (Fin 0) low && fltb high (Fin 1) then inr [[]]
    else inl ValueError;
  decimate := fun x _ =>
    match x with
    | [] => inl ValueError
    | _ :: _ => inr x
    end;
  sosfilt := fun _ sd => inr sd;
|}.

(** ** Closed forms used in the statements *)

(** Center frequency of the band of integer index [n]. *)
Definition center (b : R) (n : Z) : R :=
  (if py_truthy (py_mod b 2)
   then Rpower G ((IZR n - 30) / b)
   else Rpower G ((2 * IZR n - 59) / (2 * b))) * fr.

(** The real number that [_initindex] rounds to the starting index. *)
Definition start_position (b f : R) : R :=
  if py_truthy (py_mod b 2)
  then (b * ln (f / fr) + 30 * ln G) / ln G
  else (2 * b * ln (f / fr) + 59 * ln G) / (2 * ln G).

(** Band-edge ratio [E(G, b)]. *)
Definition band_edge (b : R) : R := Rpower G (1 / (2 * b)).

(** The center frequencies of the [len] bands from index [n0] on. *)
Definition bands (b : R) (n0 : Z) (len : nat) : list npfloat :=
  map (fun k => Fin (center b (n0 + Z.of_nat k))) (seq 0 len).

(** The normalized corner frequencies handed to [signal.butter] for a
    band with edges [lower] and [upper] decimated by [q]. *)
Definition corner (fs : R) (q : Z) (edge : npfloat) : npfloat :=
  fdiv edge (fdiv (fdiv (Fin fs) (Fin (IZR q))) (Fin 2)).

(** The bands kept by a mask of removed positions. *)
Definition keep_unmasked {A : Type} (arr : list A) (mask : list bool)
  : list A :=
  fst <$> filter (fun p => snd p = false) (zip arr mask).

(** A signal of zeros. *)
Definition all_zero (x : list npfloat) : Prop := Forall (eq (Fin 0)) x.

(** The clamp applied to each downsampling factor. *)
Definition clamp (v : Z) : Z := Z.max (Z.min v 50) 1.

(** [a < b] as a proposition. *)
Definition flt (a b : npfloat) : Prop := fltb a b = true.

(** A sequence of floats is strictly increasing. *)
Definition increasing (l : list npfloat) : Prop :=
  forall (i j : nat) (a b : npfloat),
    (i < j)%nat -> l !! i = Some a -> l !! j = Some b -> flt a b.

(** ** Proof tactics *)

(** Run the binds of the outcome monad. *)
Ltac osimpl :=
  cbn [mbind outcome_bind mret outcome_ret from_option fst snd];
  unfold Datatypes.id; cbn [fst snd].

(** Compute float operations on constructors. *)
Ltac fsimpl := cbn [fadd fsub fneg fmul fdiv fltb fgtb np_round].

(** * Theorems *)

(** ** Comparisons on the reals *)

Lemma Rltb_true a b : a < b -> Rltb a b = true.
Proof. intros Hab. unfold Rltb. destruct (Rcompare_spec a b); [lra | reflexivity | lra]. Qed.

Lemma Rltb_false a b : b <= a -> Rltb a b = false.
Proof. intros Hab. unfold Rltb. destruct (Rcompare_spec a b); [reflexivity | lra | reflexivity]. Qed.

Lemma Rltb_spec a b : reflect (a < b) (Rltb a b).
Proof.
  destruct (Rlt_dec a b) as [Hlt | Hge].
  - rewrite Rltb_true by assumption. now constructor.
  - rewrite Rltb_false by lra. now constructor.
Qed.

Lemma Reqb_true a b : a = b -> Reqb a b = true.
Proof. intros ->. unfold Reqb. destruct (Rcompare_spec b b); [reflexivity | lra | lra]. Qed.

Lemma Reqb_false a b : a <> b -> Reqb a b = false.
Proof. intros Hab. unfold Reqb. destruct (Rcompare_spec a b); [contradiction | reflexivity | reflexivity]. Qed.

Lemma Rcompare_gt a b : b < a -> Rcompare a b = Gt.
Proof. intros Hab. destruct (Rcompare_spec a b); [lra | lra | reflexivity]. Qed.

Lemma Rcompare_lt a b : a < b -> Rcompare a b = Lt.
Proof. intros Hab. destruct (Rcompare_spec a b); [lra | reflexivity | lra]. Qed.

Lemma Rcompare_eq a : Rcompare a a = Eq.
Proof. destruct (Rcompare_spec a a); [reflexivity | lra | lra]. Qed.

(** ** The octave ratio and the band-edge ratio *)

Lemma Rpower_gt_1 g e : 1 < g -> 0 < e -> 1 < Rpower g e.
Proof.
  intros Hg He. rewrite <- (Rpower_O g) by lra. apply Rpower_lt; lra.
Qed.

Lemma Rpower_pos g e : 0 < Rpower g e.
Proof. unfold Rpower. apply exp_pos. Qed.

Lemma G_gt_1 : 1 < G.
Proof. unfold G. apply Rpower_gt_1; lra. Qed.

Lemma ln_G_pos : 0 < ln G.
Proof. rewrite <- ln_1. apply ln_increasing; [lra | apply G_gt_1]. Qed.

Lemma band_edge_gt_1 b : 0 < b -> 1 < band_edge b.
Proof.
  intros Hb. unfold band_edge. apply Rpower_gt_1; [apply G_gt_1 |].
  apply Rdiv_lt_0_compat; lra.
Qed.

Lemma bandedge_ret b : 0 < b -> _bandedge G b = Ret (band_edge b).
Proof.
  intros Hb. unfold _bandedge, py_div. rewrite Reqb_false by lra. reflexivity.
Qed.

Lemma band_edge_sqr b : 0 < b -> band_edge b * band_edge b = Rpower G (1 / b).
Proof.
  intros Hb. unfold band_edge. rewrite <- Rpower_plus. f_equal. field. lra.
Qed.

Lemma center_pos b n : 0 < center b n.
Proof.
  unfold center, fr. destruct (py_truthy _);
    apply Rmult_lt_0_compat; try lra; apply Rpower_pos.
Qed.

Lemma center_lt b n n' : 0 < b -> (n < n')%Z -> center b n < center b n'.
Proof.
  intros Hb Hn. apply IZR_lt in Hn. pose proof G_gt_1 as HG.
  unfold center, fr. apply Rmult_lt_compat_r; [lra |].
  destruct (py_truthy _); apply Rpower_lt; try lra.
  - apply Rmult_lt_compat_r; [apply Rinv_0_lt_compat; lra | lra].
  - apply Rmult_lt_compat_r; [apply Rinv_0_lt_compat; lra | lra].
Qed.

(** Far enough up the index the upper band edge passes any bound. *)
Lemma center_unbounded b f_max (n : Z) :
  0 < b -> 0 < f_max -> 30 + f_max * b / ln G <= IZR n ->
  f_max <= center b n * band_edge b.
Proof.
  intros Hb Hf Hn. pose proof ln_G_pos as HlG.
  pose proof (band_edge_gt_1 b Hb) as HE.
  assert (Hy : forall y, f_max <= y * ln G -> f_max <= Rpower G y * fr).
  { intros y Hy. unfold Rpower, fr. pose proof (exp_ineq1_le (y * ln G)). lra. }
  assert (Hc : f_max <= center b n).
  { unfold center. destruct (py_truthy _); apply Hy.
    - apply (Rmult_le_reg_r (b / ln G)); [apply Rdiv_lt_0_compat; lra |].
      replace ((IZR n - 30) / b * ln G * (b / ln G)) with (IZR n - 30) by (field; lra).
      lra.
    - apply (Rmult_le_reg_r (b / ln G)); [apply Rdiv_lt_0_compat; lra |].
      replace ((2 * IZR n - 59) / (2 * b) * ln G * (b / ln G))
        with (IZR n - 59 / 2) by (field; lra).
      lra. }
  pose proof (center_pos b n). nra.
Qed.

(** ** Evaluating the frequency generator on finite values *)


Lemma np_log_pos r : 0 < r -> np_log (Fin r) = Fin (ln r).
Proof. intros Hr. unfold np_log. now rewrite Rcompare_gt. Qed.

Lemma np_log_zero : np_log (Fin 0) = NInf.
Proof. unfold np_log. now rewrite Rcompare_eq. Qed.

Lemma np_log_neg r : r < 0 -> np_log (Fin r) = NaN.
Proof. intros Hr. unfold np_log. now rewrite Rcompare_lt. Qed.

Lemma np_log_G : np_log (Fin G) = Fin (ln G).
Proof. apply np_log_pos. pose proof G_gt_1. lra. Qed.

Lemma fdiv_fin x y : y <> 0 -> fdiv (Fin x) (Fin y) = Fin (x / y).
Proof. intros Hy. unfold fdiv. now rewrite Reqb_false. Qed.

Lemma fpow_G_fin e : fpow G (Fin e) = Fin (Rpower G e).
Proof.
  pose proof G_gt_1. unfold fpow.
  rewrite Reqb_false by lra. now rewrite Rltb_true.
Qed.

Lemma fpow_G_nan : fpow G NaN = NaN.
Proof.
  pose proof G_gt_1. unfold fpow.
  rewrite Reqb_false by lra. now rewrite Rltb_true.
Qed.

Lemma fpow_G_ninf : fpow G NInf = Fin 0.
Proof.
  pose proof G_gt_1. unfold fpow.
  rewrite Reqb_false by lra. now rewrite Rltb_true.
Qed.

Lemma py_div_ret a b : b <> 0 -> py_div a b = Ret (a / b).
Proof. intros Hb. unfold py_div. now rewrite Reqb_false. Qed.

(** On a positive lower limit the starting index is an integer. *)
Lemma initindex_fin f b :
  0 < b -> 0 < f -> exists n0 : Z, _initindex f fr G b = Ret (Fin (IZR n0)).
Proof.
  intros Hb Hf. pose proof ln_G_pos as HlG.
  assert (Hq : 0 < f / fr) by (unfold fr; lra).
  unfold _initindex. rewrite py_div_ret by (unfold fr; lra). osimpl.
  rewrite np_log_G, (np_log_pos _ Hq).
  destruct (py_truthy _); fsimpl.
  - rewrite Reqb_false by lra. eexists. reflexivity.
  - rewrite Reqb_false by lra. eexists. reflexivity.
Qed.

(** A zero lower limit sends the starting index to [-inf]. *)
Lemma initindex_zero b : 0 < b -> _initindex 0 fr G b = Ret NInf.
Proof.
  intros Hb. pose proof ln_G_pos as HlG.
  unfold _initindex. rewrite py_div_ret by (unfold fr; lra). osimpl.
  replace (0 / fr) with 0 by (unfold fr; lra).
  rewrite np_log_G, np_log_zero.
  destruct (py_truthy _); fsimpl.
  - unfold inf_of_sign. rewrite Rcompare_lt by lra. fsimpl.
    now rewrite Rltb_false by lra.
  - unfold inf_of_sign. rewrite Rcompare_lt by lra. fsimpl.
    now rewrite Rltb_false by lra.
Qed.

(** A negative lower limit makes it [nan]. *)
Lemma initindex_neg f b : f < 0 -> _initindex f fr G b = Ret NaN.
Proof.
  intros Hf.
  assert (Hq : f / fr < 0).
  { unfold fr. lra. }
  unfold _initindex. rewrite py_div_ret by (unfold fr; lra). osimpl.
  rewrite (np_log_neg _ Hq). now destruct (py_truthy _).
Qed.

Lemma ratio_center b n :
  0 < b -> fmul (_ratio G (Fin (IZR n)) b) (Fin fr) = Fin (center b n).
Proof.
  intros Hb. unfold _ratio, center.
  destruct (py_truthy _); fsimpl.
  - rewrite Reqb_false by lra. rewrite fpow_G_fin. reflexivity.
  - rewrite Reqb_false by lra. rewrite fpow_G_fin. reflexivity.
Qed.

Lemma ratio_ninf b : 0 < b -> fmul (_ratio G NInf b) (Fin fr) = Fin 0.
Proof.
  intros Hb. unfold _ratio.
  destruct (py_truthy _); fsimpl.
  - rewrite Rltb_false by lra. rewrite fpow_G_ninf. fsimpl. f_equal. lra.
  - unfold inf_of_sign. rewrite Rcompare_lt by lra. fsimpl.
    rewrite Rltb_false by lra. rewrite fpow_G_ninf. fsimpl. f_equal. lra.
Qed.

Lemma ratio_nan b : fmul (_ratio G NaN b) (Fin fr) = NaN.
Proof.
  unfold _ratio. destruct (py_truthy _); fsimpl; now rewrite fpow_G_nan.
Qed.

(** ** The loop of [getANSIFrequencies] *)

Lemma ansi_loop_unfold fuel b f_max x freq_x freq :
  0 < b ->
  ansi_loop fuel b f_max x freq_x freq =
  if fltb (fmul freq_x (Fin (band_edge b))) (Fin f_max) then
    match fuel with
    | O => Timeout
    | S fuel' =>
        ansi_loop fuel' b f_max (fadd x (Fin 1))
          (fmul (_ratio G (fadd x (Fin 1)) b) (Fin fr))
          (freq ++ [fmul (_ratio G (fadd x (Fin 1)) b) (Fin fr)])
    end
  else Ret freq.
Proof.
  intros Hb. destruct fuel; cbn [ansi_loop]; rewrite (bandedge_ret b Hb); reflexivity.
Qed.

Lemma bands_S b n0 len :
  bands b n0 (S len) = bands b n0 len ++ [Fin (center b (n0 + Z.of_nat len))].
Proof. unfold bands. rewrite seq_S, map_app. reflexivity. Qed.

Lemma length_bands b n0 len : length (bands b n0 len) = len.
Proof. unfold bands. now rewrite length_map, length_seq. Qed.

Lemma lookup_bands b n0 len i :
  (i < len)%nat -> bands b n0 len !! i = Some (Fin (center b (n0 + Z.of_nat i))).
Proof.
  intros Hi. unfold bands. rewrite list_lookup_fmap.
  rewrite lookup_seq_lt by assumption. reflexivity.
Qed.

(** From the state reached after [k] runs of the body, the loop stops
    at the first band from [k] on whose upper edge reaches [f_max]. *)
Lemma ansi_loop_run b f_max n0 (d : nat) :
  0 < b ->
  forall k : nat,
    f_max <= center b (n0 + Z.of_nat (k + d)) * band_edge b ->
    exists m : nat,
      (k <= m <= k + d)%nat /\
      (forall j : nat, (k <= j < m)%nat ->
         center b (n0 + Z.of_nat j) * band_edge b < f_max) /\
      f_max <= center b (n0 + Z.of_nat m) * band_edge b /\
      forall fuel : nat, (m - k <= fuel)%nat ->
        ansi_loop fuel b f_max (Fin (IZR (n0 + Z.of_nat k)))
          (Fin (center b (n0 + Z.of_nat k))) (bands b n0 (S k))
        = Ret (bands b n0 (S m)).
Proof.
  intros Hb. induction d as [| d IH]; intros k Hstop.
  - exists k. replace (k + 0)%nat with k in Hstop by lia.
    repeat split; try lia; [assumption |].
    intros fuel _. rewrite ansi_loop_unfold by assumption. fsimpl.
    now rewrite Rltb_false.
  - destruct (Rlt_dec (center b (n0 + Z.of_nat k) * band_edge b) f_max)
      as [Hlt | Hge].
    + destruct (IH (S k)) as (m & Hm & Hbefore & Hat & Hrun).
      { now replace (S k + d)%nat with (k + S d)%nat by lia. }
      exists m. repeat split; try lia; [| assumption |].
      * intros j Hj. destruct (decide (j = k)) as [-> | Hne]; [assumption |].
        apply Hbefore. lia.
      * intros fuel Hfuel. destruct fuel as [| fuel]; [lia |].
        rewrite ansi_loop_unfold by assumption. cbn [fmul fltb].
        rewrite Rltb_true by assumption. cbn [fadd].
        replace (IZR (n0 + Z.of_nat k) + 1) with (IZR (n0 + Z.of_nat (S k)))
          by (rewrite <- (plus_IZR _ 1); f_equal; lia).
        rewrite ratio_center by assumption.
        rewrite <- bands_S. apply Hrun. lia.
    + exists k. repeat split; try lia; [lra |].
      intros fuel _. rewrite ansi_loop_unfold by assumption. fsimpl.
      rewrite Rltb_false by lra. reflexivity.
Qed.

(** The run of [getANSIFrequencies] on a positive fraction and positive
    limits: from the starting index [n0] the loop stores the bands
    [n0 + 1 .. n0 + m], where [m >= 1] is the first of them whose upper
    edge reaches [f_max]. *)
Lemma getANSIFrequencies_run b f_min f_max :
  0 < b -> 0 < f_min -> 0 < f_max ->
  exists (n0 : Z) (m : nat),
    _initindex f_min fr G b = Ret (Fin (IZR n0)) /\
    (1 <= m)%nat /\
    (forall j : nat, (1 <= j < m)%nat ->
       center b (n0 + Z.of_nat j) * band_edge b < f_max) /\
    f_max <= center b (n0 + Z.of_nat m) * band_edge b /\
    forall fuel : nat, (m <= fuel)%nat ->
      getANSIFrequencies fuel b (Some (f_min, f_max)) =
      Ret (bands b n0 (S m),
           map (fun v => fdiv v (Fin (band_edge b))) (bands b n0 (S m)),
           map (fun v => fmul v (Fin (band_edge b))) (bands b n0 (S m))).
Proof.
  intros Hb Hmin Hmax. pose proof ln_G_pos as HlG.
  destruct (initindex_fin f_min b Hb Hmin) as [n0 Hn0].
  set (z := up (30 + f_max * b / ln G)).
  set (K := Z.to_nat (Z.max 1 (z - n0))).
  assert (HK1 : (1 <= K)%nat) by (unfold K; lia).
  assert (HKz : (z <= n0 + Z.of_nat K)%Z) by (unfold K; lia).
  destruct (ansi_loop_run b f_max n0 (K - 1) Hb 1) as (m & Hm & Hbefore & Hat & Hrun).
  { replace (1 + (K - 1))%nat with K by lia.
    apply center_unbounded; try assumption.
    apply IZR_le in HKz. pose proof (archimed (30 + f_max * b / ln G)) as [Hup _].
    fold z in Hup. lra. }
  exists n0, m. repeat split; try assumption; try lia.
  intros fuel Hfuel. destruct fuel as [| fuel]; [lia |].
  unfold getANSIFrequencies. osimpl. rewrite Hn0. osimpl.
  rewrite ratio_center by assumption.
  rewrite ansi_loop_unfold by assumption. fsimpl.
  rewrite Rltb_true by (pose proof (band_edge_gt_1 b Hb); nra).
  replace (IZR n0 + 1) with (IZR (n0 + Z.of_nat 1))
    by (rewrite <- (plus_IZR _ 1); f_equal).
  rewrite ratio_center by assumption.
  replace ([Fin (center b n0)] ++ [Fin (center b (n0 + Z.of_nat 1))])
    with (bands b n0 2).
  2:{ unfold bands. cbn. repeat f_equal. lia. }
  rewrite Hrun by lia. osimpl.
  rewrite bandedge_ret by assumption. reflexivity.
Qed.

(** With a zero lower limit the index stays at [-inf], every frequency
    the loop computes is [0], and the loop condition never fails. *)
Lemma ansi_loop_ninf b f_max :
  0 < b -> 0 < f_max ->
  forall (fuel : nat) (freq : list npfloat),
    ansi_loop fuel b f_max NInf (Fin 0) freq = Timeout.
Proof.
  intros Hb Hmax. induction fuel as [| fuel IH]; intros freq.
  - rewrite ansi_loop_unfold by assumption. fsimpl.
    now rewrite Rltb_true by lra.
  - rewrite ansi_loop_unfold by assumption. fsimpl.
    rewrite Rltb_true by lra.
    rewrite ratio_ninf by assumption. apply IH.
Qed.

Lemma getANSIFrequencies_zero_min b f_max :
  0 < b -> 0 < f_max ->
  forall fuel : nat, getANSIFrequencies fuel b (Some (0, f_max)) = Timeout.
Proof.
  intros Hb Hmax fuel. unfold getANSIFrequencies. osimpl.
  rewrite initindex_zero by assumption. osimpl.
  rewrite ansi_loop_ninf by assumption. reflexivity.
Qed.

(** With a negative lower limit every frequency is [nan]; the body runs
    once and the comparison with [nan] ends the loop. *)
Lemma getANSIFrequencies_neg_min b f_min f_max (fuel : nat) :
  0 < b -> f_min < 0 -> 0 < f_max -> (1 <= fuel)%nat ->
  getANSIFrequencies fuel b (Some (f_min, f_max)) =
  Ret ([NaN; NaN], [NaN; NaN], [NaN; NaN]).
Proof.
  intros Hb Hmin Hmax Hfuel. destruct fuel as [| fuel]; [lia |].
  unfold getANSIFrequencies. osimpl.
  rewrite initindex_neg by assumption. osimpl.
  rewrite ratio_nan.
  rewrite ansi_loop_unfold by assumption. fsimpl.
  rewrite Rltb_true by lra. rewrite ratio_nan.
  rewrite ansi_loop_unfold by assumption. fsimpl. osimpl.
  rewrite bandedge_ret by assumption. reflexivity.
Qed.

Lemma bands_lookup_inv b n0 len i c :
  bands b n0 len !! i = Some c ->
  (i < len)%nat /\ c = Fin (center b (n0 + Z.of_nat i)).
Proof.
  intros Hi. assert (Hlt : (i < len)%nat).
  { apply lookup_lt_Some in Hi. now rewrite length_bands in Hi. }
  rewrite lookup_bands in Hi by assumption. split; congruence.
Qed.

Lemma lower_edges_lookup_inv b n0 len i d :
  0 < b ->
  map (fun v => fdiv v (Fin (band_edge b))) (bands b n0 len) !! i = Some d ->
  (i < len)%nat /\ d = Fin (center b (n0 + Z.of_nat i) / band_edge b).
Proof.
  intros Hb Hi. rewrite list_lookup_fmap in Hi.
  destruct (bands b n0 len !! i) as [c |] eqn:Hc; [| discriminate].
  apply bands_lookup_inv in Hc as [Hlt ->]. split; [assumption |].
  cbn in Hi. rewrite Reqb_false in Hi
    by (pose proof (band_edge_gt_1 b Hb); lra).
  congruence.
Qed.

Lemma upper_edges_lookup_inv b n0 len i u :
  map (fun v => fmul v (Fin (band_edge b))) (bands b n0 len) !! i = Some u ->
  (i < len)%nat /\ u = Fin (center b (n0 + Z.of_nat i) * band_edge b).
Proof.
  intros Hi. rewrite list_lookup_fmap in Hi.
  destruct (bands b n0 len !! i) as [c |] eqn:Hc; [| discriminate].
  apply bands_lookup_inv in Hc as [Hlt ->]. split; [assumption |].
  cbn in Hi. congruence.
Qed.

Lemma flt_fin x y : x < y -> flt (Fin x) (Fin y).
Proof. intros Hxy. unfold flt. cbn. now apply Rltb_true. Qed.

Lemma bands_increasing b n0 len : 0 < b -> increasing (bands b n0 len).
Proof.
  intros Hb i j x y Hij Hi Hj.
  apply bands_lookup_inv in Hi as [_ ->]. apply bands_lookup_inv in Hj as [_ ->].
  apply flt_fin, center_lt; [assumption | lia].
Qed.

Lemma lower_edges_increasing b n0 len :
  0 < b ->
  increasing (map (fun v => fdiv v (Fin (band_edge b))) (bands b n0 len)).
Proof.
  intros Hb i j x y Hij Hi Hj. pose proof (band_edge_gt_1 b Hb) as HE.
  apply lower_edges_lookup_inv in Hi as [_ ->]; [| assumption].
  apply lower_edges_lookup_inv in Hj as [_ ->]; [| assumption].
  apply flt_fin. apply Rmult_lt_compat_r; [apply Rinv_0_lt_compat; lra |].
  apply center_lt; [assumption | lia].
Qed.

Lemma upper_edges_increasing b n0 len :
  0 < b ->
  increasing (map (fun v => fmul v (Fin (band_edge b))) (bands b n0 len)).
Proof.
  intros Hb i j x y Hij Hi Hj. pose proof (band_edge_gt_1 b Hb) as HE.
  apply upper_edges_lookup_inv in Hi as [_ ->].
  apply upper_edges_lookup_inv in Hj as [_ ->].
  apply flt_fin. apply Rmult_lt_compat_r; [lra |].
  apply center_lt; [assumption | lia].
Qed.

(** ** Settled properties of [getANSIFrequencies] *)






(** In exact arithmetic the ratio of the two edges of a band is the
    square of the band-edge ratio. *)
Lemma edge_ratio_exact b n :
  0 < b ->
  fdiv (Fin (center b n * band_edge b)) (Fin (center b n / band_edge b))
  = Fin (band_edge b ^ 2).
Proof.
  intros Hb. pose proof (band_edge_gt_1 b Hb) as HE.
  pose proof (center_pos b n) as Hc.
  assert (Hd : center b n / band_edge b <> 0).
  { apply Rgt_not_eq. apply Rdiv_lt_0_compat; lra. }
  rewrite fdiv_fin by assumption. f_equal. field. lra.
Qed.






(** ** A run on concrete limits *)

Lemma py_truthy_mod_1 : py_truthy (py_mod 1 2) = true.
Proof.
  unfold py_truthy, py_mod.
  assert (Hfloor : Zfloor (1 / 2) = 0%Z) by (apply Zfloor_eq; lra).
  rewrite Hfloor, Reqb_false by lra. reflexivity.
Qed.

Lemma round_half_even_IZR (n : Z) : round_half_even (IZR n) = n.
Proof.
  unfold round_half_even. rewrite ZfloorZ.
  now rewrite Rcompare_lt by lra.
Qed.

Lemma initindex_reference : _initindex 1000 fr G 1 = Ret (Fin (IZR 30)).
Proof.
  pose proof ln_G_pos as HlG.
  unfold _initindex. rewrite py_div_ret by (unfold fr; lra). osimpl.
  rewrite py_truthy_mod_1, np_log_G.
  replace (1000 / fr) with 1 by (unfold fr; lra).
  rewrite np_log_pos by lra. rewrite ln_1. fsimpl.
  rewrite Reqb_false by lra. fsimpl.
  replace ((1 * 0 + 30 * ln G) / ln G) with (IZR 30) by (field; lra).
  now rewrite round_half_even_IZR.
Qed.

Lemma center_reference : center 1 30 = 1000.
Proof.
  unfold center, fr. rewrite py_truthy_mod_1.
  replace ((30 - 30) / 1) with 0 by lra.
  rewrite Rpower_O by (pose proof G_gt_1; lra). lra.
Qed.

Lemma center_next : center 1 31 = G * 1000.
Proof.
  unfold center, fr. rewrite py_truthy_mod_1.
  replace ((31 - 30) / 1) with 1 by lra.
  rewrite Rpower_1 by (pose proof G_gt_1; lra). reflexivity.
Qed.

(** One-octave bands with limits [[1000, 1000]]: the first band, centered
    on 1000 Hz, already has its upper edge above 1000 Hz, and the band
    centered on [G * 1000] Hz is stored all the same. *)
Lemma getANSIFrequencies_reference_bands (fuel : nat) :
  (1 <= fuel)%nat ->
  1000 < 1000 * band_edge 1 /\
  getANSIFrequencies fuel 1 (Some (1000, 1000)) =
  Ret ([Fin 1000; Fin (G * 1000)],
       [Fin (1000 / band_edge 1); Fin (G * 1000 / band_edge 1)],
       [Fin (1000 * band_edge 1); Fin (G * 1000 * band_edge 1)]).
Proof.
  intros Hfuel. pose proof (band_edge_gt_1 1 ltac:(lra)) as HE.
  pose proof G_gt_1 as HG.
  split; [lra |].
  destruct (getANSIFrequencies_run 1 1000 1000 ltac:(lra) ltac:(lra) ltac:(lra))
    as (n0 & m & Hn0 & Hm & Hbefore & _ & Hrun).
  rewrite initindex_reference in Hn0. injection Hn0 as Hn0.
  apply eq_IZR in Hn0. subst n0.
  assert (m = 1%nat) as ->.
  { destruct (decide (m = 1%nat)) as [| Hne]; [assumption |].
    specialize (Hbefore 1%nat ltac:(lia)).
    change (30 + Z.of_nat 1)%Z with 31%Z in Hbefore.
    rewrite center_next in Hbefore. nra. }
  rewrite Hrun by assumption. unfold bands. cbn [seq map].
  change (30 + Z.of_nat 0)%Z with 30%Z. change (30 + Z.of_nat 1)%Z with 31%Z.
  rewrite center_reference, center_next. fsimpl.
  rewrite !Reqb_false by lra. reflexivity.
Qed.

(** ** Normalized frequencies *)

(** C7.  [normalizedFreq(3)] is the fixed list of 33 third-octave center
    frequencies from 12.5 to 20000 Hz and [normalizedFreq(1)] the fixed
    list of 11 one-octave center frequencies from 16 to 16000 Hz; the
    function takes the fraction only, no limits. *)
Theorem normalizedFreq_predefined_lists :
  normalizedFreq 3 =
    Ret [12.5; 16; 20; 25; 31.5; 40; 50; 63; 80; 100; 125; 160; 200; 250;
         315; 400; 500; 630; 800; 1000; 1250; 1600; 2000; 2500; 3150;
         4000; 5000; 6300; 8000; 10000; 12500; 16000; 20000] /\
  normalizedFreq 1 =
    Ret [16; 31.5; 63; 125; 250; 500; 1000; 2000; 4000; 8000; 16000] /\
  length _thirdOctave = 33%nat /\ length _oneOctave = 11%nat.
Proof. repeat split. Qed.

(** C8.  [normalizedFreq] raises on every fraction other than 1 and 3
    (the dictionary lookup's [KeyError], the error the specification
    calls UnsupportedFractionError) and returns a list for 1 and for 3. *)
Theorem normalizedFreq_unsupported_fraction :
  (forall fraction : Z,
     fraction <> 1%Z -> fraction <> 3%Z ->
     normalizedFreq fraction = Raise (KeyError fraction)) /\
  (forall fraction : Z,
     fraction = 1%Z \/ fraction = 3%Z ->
     exists l : list R, normalizedFreq fraction = Ret l).
Proof.
  split.
  - intros fraction H1 H3. unfold normalizedFreq.
    rewrite lookup_insert_ne by congruence.
    rewrite lookup_singleton_ne by congruence. reflexivity.
  - intros fraction [-> | ->]; eexists; reflexivity.
Qed.

Lemma normalizedFreq_unsupported_fraction_witness :
  2%Z <> 1%Z /\ 2%Z <> 3%Z /\ normalizedFreq 2 = Raise (KeyError 2).
Proof.
  assert (H1 : 2%Z <> 1%Z) by lia.
  assert (H3 : 2%Z <> 3%Z) by lia.
  split; [assumption |]. split; [assumption |].
  exact (proj1 normalizedFreq_unsupported_fraction 2%Z H1 H3).
Defined.

(** ** Downsampling factors *)

(** The in-place loop clamps every entry. *)
Lemma clamp_loop_prefix (factor : list Z) (n : nat) :
  (n <= length factor)%nat ->
  foldl (fun factor ii =>
           match factor !! ii with
           | Some v => <[ii := Z.max (Z.min v 50) 1]> factor
           | None => factor
           end)
        factor (seq 0 n)
  = (clamp <$> take n factor) ++ drop n factor.
Proof.
  induction n as [| n IH]; intros Hn.
  - cbn. now rewrite drop_0.
  - rewrite seq_S, foldl_app, IH by lia. cbn [foldl Nat.add].
    destruct (lookup_lt_is_Some_2 factor n) as [v Hv]; [lia |].
    assert (Hlen : length (clamp <$> take n factor) = n).
    { rewrite length_fmap, length_take. lia. }
    rewrite lookup_app_r by lia. rewrite Hlen, Nat.sub_diag.
    rewrite (drop_S _ _ _ Hv). cbn [lookup list_lookup].
    rewrite insert_app_r_alt by lia. rewrite Hlen, Nat.sub_diag.
    cbn [insert list_insert].
    rewrite (take_S_r _ _ _ Hv), fmap_app, <- app_assoc. reflexivity.
Qed.

Lemma clamp_loop_map (factor : list Z) : clamp_loop factor = clamp <$> factor.
Proof.
  unfold clamp_loop. rewrite clamp_loop_prefix by lia.
  rewrite firstn_all, drop_all, app_nil_r. reflexivity.
Qed.

Lemma Ztrunc_nonneg r : 0 <= r -> Ztrunc r = Zfloor r.
Proof. intros Hr. unfold Ztrunc. now rewrite Rltb_false. Qed.

(** Truncation and floor differ only below zero, where both clamp to 1. *)
Lemma clamp_trunc_floor r : clamp (Ztrunc r) = clamp (Zfloor r).
Proof.
  destruct (Rlt_dec r 0) as [Hneg | Hpos].
  - unfold Ztrunc. rewrite Rltb_true by assumption.
    pose proof (Zceil_bound r) as [Hc _]. pose proof (Zfloor_bound r) as [Hf _].
    assert (Hc' : (Zceil r < 1)%Z) by (apply lt_IZR; lra).
    assert (Hf' : (Zfloor r < 0)%Z) by (apply lt_IZR; lra).
    unfold clamp. lia.
  - now rewrite Ztrunc_nonneg by lra.
Qed.

Lemma downsamplingfactor_map freq fs :
  _downsamplingfactor freq fs =
  (fun f => clamp (astype_int (fdiv (Fin (fs / 2)) f))) <$> freq.
Proof.
  unfold _downsamplingfactor. rewrite clamp_loop_map.
  change (map ?f ?l) with (f <$> l). now rewrite <- list_fmap_compose.
Qed.

Lemma length_downsamplingfactor freq fs :
  length (_downsamplingfactor freq fs) = length freq.
Proof. now rewrite downsamplingfactor_map, length_fmap. Qed.



(** ** Removing the bands above the Nyquist frequency *)

Lemma elem_of_where_from (k : nat) (mask : list bool) (i : nat) :
  i ∈ where_from k mask <->
  exists j : nat, i = (k + j)%nat /\ mask !! j = Some true.
Proof.
  revert k. induction mask as [| m mask IH]; intros k; cbn.
  - split; [intros Hin; inversion Hin | intros (j & _ & Hj); discriminate].
  - destruct m.
    + rewrite elem_of_cons, IH. split.
      * intros [-> | (j & -> & Hj)].
        -- exists 0%nat. split; [lia | reflexivity].
        -- exists (S j). split; [lia | assumption].
      * intros (j & -> & Hj). destruct j as [| j].
        -- left. lia.
        -- right. exists j. split; [lia | assumption].
    + rewrite IH. split.
      * intros (j & -> & Hj). exists (S j). split; [lia | assumption].
      * intros (j & -> & Hj). destruct j as [| j]; [discriminate |].
        exists j. split; [lia | assumption].
Qed.

Lemma where_from_bound (k : nat) (mask : list bool) (i : nat) :
  i ∈ where_from k mask -> (k <= i < k + length mask)%nat.
Proof.
  rewrite elem_of_where_from. intros (j & -> & Hj).
  apply lookup_lt_Some in Hj. lia.
Qed.

Lemma length_delete_from {A B : Type} (k : nat) (a1 : list A) (a2 : list B)
    (idx : list nat) :
  length a1 = length a2 ->
  length (delete_from k a1 idx) = length (delete_from k a2 idx).
Proof.
  revert k a2. induction a1 as [| x a1 IH]; intros k [| y a2] Hlen;
    try discriminate; [reflexivity |].
  cbn. injection Hlen as Hlen. specialize (IH (S k) a2 Hlen).
  destruct (bool_decide (k ∈ idx)); cbn; congruence.
Qed.

(** Deleting the positions of a mask keeps the unmasked elements. *)
Lemma delete_from_mask {A : Type} (k : nat) (arr : list A)
    (mask : list bool) (idx : list nat) :
  length arr = length mask ->
  (forall j : nat, (j < length mask)%nat ->
     (k + j)%nat ∈ idx <-> mask !! j = Some true) ->
  delete_from k arr idx = keep_unmasked arr mask.
Proof.
  revert k mask. induction arr as [| a arr IH]; intros k [| m mask] Hlen Hidx;
    try discriminate; [reflexivity |].
  injection Hlen as Hlen. cbn [delete_from].
  assert (Hrest : delete_from (S k) arr idx = keep_unmasked arr mask).
  { apply IH; [assumption |]. intros j Hj.
    rewrite <- (Hidx (S j)) by (cbn; lia).
    now replace (k + S j)%nat with (S k + j)%nat by lia. }
  pose proof (Hidx 0%nat ltac:(cbn; lia)) as H0.
  replace (k + 0)%nat with k in H0 by lia. cbn in H0.
  unfold keep_unmasked in *. cbn [zip zip_with].
  destruct m.
  - rewrite bool_decide_eq_true_2 by (now apply H0).
    rewrite filter_cons_False by (cbn; discriminate). assumption.
  - rewrite bool_decide_eq_false_2 by (rewrite H0; discriminate).
    rewrite filter_cons_True by reflexivity. cbn. now f_equal.
Qed.

Lemma np_delete_where {A : Type} (arr : list A) (mask : list bool) :
  length arr = length mask ->
  np_delete arr (np_where mask) = Ret (keep_unmasked arr mask).
Proof.
  intros Hlen. unfold np_delete, np_where.
  assert (Hall : forallb (fun i => Nat.ltb i (length arr)) (where_from 0 mask)
                 = true).
  { apply forallb_forall. intros i Hi. apply list_elem_of_In in Hi.
    apply where_from_bound in Hi. apply Nat.ltb_lt. lia. }
  rewrite Hall. f_equal. apply delete_from_mask; [assumption |].
  intros j _. rewrite elem_of_where_from. split.
  - intros (j' & Hj' & Hm). now replace j with j' by lia.
  - intros Hm. now exists j.
Qed.

Lemma length_keep_unmasked {A B : Type} (a1 : list A) (a2 : list B)
    (mask : list bool) :
  length a1 = length a2 ->
  length (keep_unmasked a1 mask) = length (keep_unmasked a2 mask).
Proof.
  revert a2 mask. induction a1 as [| x a1 IH]; intros [| y a2] mask Hlen;
    try discriminate; [reflexivity |].
  injection Hlen as Hlen. destruct mask as [| m mask]; [reflexivity |].
  unfold keep_unmasked in *. cbn [zip zip_with].
  specialize (IH a2 mask Hlen).
  destruct m.
  - rewrite !filter_cons_False by (cbn; discriminate). assumption.
  - rewrite !filter_cons_True by reflexivity. cbn. now f_equal.
Qed.

(** The mask of the bands above the Nyquist frequency. *)
Lemma py_any_false_iff (idx : list nat) :
  py_any idx = false <-> forall i : nat, i ∈ idx -> i = 0%nat.
Proof.
  unfold py_any. split.
  - intros Hany i Hi. apply list_elem_of_In in Hi.
    destruct (Nat.eqb i 0) eqn:Hi0; [now apply Nat.eqb_eq |].
    assert (Hex : existsb (fun i => negb (Nat.eqb i 0)) idx = true).
    { apply existsb_exists. exists i. now rewrite Hi0. }
    congruence.
  - intros Hall. destruct (existsb _ idx) eqn:Hex; [| reflexivity].
    apply existsb_exists in Hex as (i & Hi & Hne).
    apply list_elem_of_In in Hi. apply Hall in Hi. now subst i.
Qed.

(** What [_deleteOuters] returns on three sequences of one length: the
    bands at or below [fs/2] when some band other than the first is
    above it, and the sequences unchanged otherwise. *)
Lemma deleteOuters_cases (freq freq_d freq_u : list npfloat) (fs : R) :
  length freq_d = length freq -> length freq_u = length freq ->
  let mask := map (fun u => fgtb u (Fin (fs / 2))) freq_u in
  _deleteOuters freq freq_d freq_u fs =
  if py_any (np_where mask)
  then Ret (keep_unmasked freq mask, keep_unmasked freq_d mask,
            keep_unmasked freq_u mask)
  else Ret (freq, freq_d, freq_u).
Proof.
  intros Hd Hu mask. unfold _deleteOuters. fold mask.
  assert (Hm : length mask = length freq).
  { unfold mask. now rewrite length_map. }
  destruct (py_any (np_where mask)); [| reflexivity].
  rewrite !np_delete_where by congruence. reflexivity.
Qed.

Lemma deleteOuters_lengths (freq freq_d freq_u : list npfloat) (fs : R)
    (freq' freq_d' freq_u' : list npfloat) :
  length freq_d = length freq -> length freq_u = length freq ->
  _deleteOuters freq freq_d freq_u fs = Ret (freq', freq_d', freq_u') ->
  length freq_d' = length freq' /\ length freq_u' = length freq'.
Proof.
  intros Hd Hu Hrun. rewrite deleteOuters_cases in Hrun by assumption.
  destruct (py_any _); injection Hrun as <- <- <-; [| now split].
  split; apply length_keep_unmasked; assumption.
Qed.

(** C2, at a band set of a single band above the Nyquist frequency:
    its upper edge 1414 Hz exceeds [fs/2 = 1000] Hz, its position is
    the only one found, [any] sees the position 0 as false, and the band
    is returned instead of being removed. *)
Theorem deleteOuters_keeps_single_band_above_nyquist :
  fgtb (Fin 1414) (Fin (2000 / 2)) = true /\
  np_where (map (fun u => fgtb u (Fin (2000 / 2))) [Fin 1414]) = [0%nat] /\
  py_any [0%nat] = false /\
  _deleteOuters [Fin 1000] [Fin 707] [Fin 1414] 2000 =
    Ret ([Fin 1000], [Fin 707], [Fin 1414]).
Proof.
  assert (Hgt : fgtb (Fin 1414) (Fin (2000 / 2)) = true).
  { unfold fgtb. cbn. apply Rltb_true. lra. }
  assert (Hidx : np_where (map (fun u => fgtb u (Fin (2000 / 2))) [Fin 1414])
                 = [0%nat]).
  { cbn [map]. rewrite Hgt. reflexivity. }
  repeat split; try assumption.
  unfold _deleteOuters. rewrite Hidx. reflexivity.
Qed.

(** The defect is confined to band sets whose only band above [fs/2] is
    the first one.  On strictly increasing upper edges this means a band
    set of a single band; with two bands or more the clipping is
    exact. *)

Lemma flt_trans a b c : flt a b -> flt b c -> flt a c.
Proof.
  unfold flt. destruct a as [x | | |], b as [y | | |], c as [z | | |];
    cbn; try discriminate; try reflexivity.
  intros Hxy Hyz.
  destruct (Rltb_spec x y) as [Hxy' |]; [| discriminate].
  destruct (Rltb_spec y z) as [Hyz' |]; [| discriminate].
  apply Rltb_true. lra.
Qed.

Lemma keep_unmasked_all {A : Type} (arr : list A) (mask : list bool) :
  length arr = length mask ->
  (forall j : nat, mask !! j <> Some true) ->
  keep_unmasked arr mask = arr.
Proof.
  revert mask. induction arr as [| a arr IH]; intros [| m mask] Hlen Hmask;
    try discriminate; [reflexivity |].
  injection Hlen as Hlen. unfold keep_unmasked in *. cbn [zip zip_with].
  destruct m; [now specialize (Hmask 0%nat) |].
  rewrite filter_cons_True by reflexivity. cbn. f_equal.
  apply IH; [assumption |]. intros j. apply (Hmask (S j)).
Qed.

Lemma keep_unmasked_elem (f : npfloat -> bool) (arr : list npfloat)
    (u : npfloat) :
  u ∈ keep_unmasked arr (map f arr) -> u ∈ arr /\ f u = false.
Proof.
  induction arr as [| a arr IH]; unfold keep_unmasked in *; cbn [map zip zip_with].
  - intros Hin. inversion Hin.
  - destruct (f a) eqn:Hfa.
    + rewrite filter_cons_False by (cbn; congruence).
      intros Hin. destruct (IH Hin) as [Hu Hf]. split; [now right | assumption].
    + rewrite filter_cons_True by (cbn; congruence). cbn.
      rewrite elem_of_cons. intros [-> | Hin].
      * split; [now left | assumption].
      * destruct (IH Hin) as [Hu Hf]. split; [now right | assumption].
Qed.

Lemma deleteOuters_clips_increasing (freq freq_d freq_u : list npfloat)
    (fs : R) :
  length freq_d = length freq -> length freq_u = length freq ->
  increasing freq_u -> (2 <= length freq_u)%nat ->
  let mask := map (fun u => fgtb u (Fin (fs / 2))) freq_u in
  _deleteOuters freq freq_d freq_u fs =
    Ret (keep_unmasked freq mask, keep_unmasked freq_d mask,
         keep_unmasked freq_u mask) /\
  forall u : npfloat,
    u ∈ keep_unmasked freq_u mask -> fgtb u (Fin (fs / 2)) = false.
Proof.
  intros Hd Hu Hinc Hlen mask. split.
  2:{ intros u Hin. now apply keep_unmasked_elem in Hin. }
  rewrite deleteOuters_cases by assumption. fold mask.
  destruct (py_any (np_where mask)) eqn:Hany; [reflexivity |].
  assert (Hm : length mask = length freq_u) by (unfold mask; now rewrite length_map).
  assert (Hnone : forall j : nat, mask !! j <> Some true).
  { intros j Hj.
    assert (Hj0 : j = 0%nat).
    { apply (proj1 (py_any_false_iff _) Hany). unfold np_where.
      apply elem_of_where_from. now exists j. }
    subst j.
    (* the second band is above the first one, hence above [fs/2] too *)
    destruct (lookup_lt_is_Some_2 freq_u 0) as [u0 Hu0]; [lia |].
    destruct (lookup_lt_is_Some_2 freq_u 1) as [u1 Hu1]; [lia |].
    assert (H01 : flt u0 u1) by (apply (Hinc 0%nat 1%nat); [lia | assumption ..]).
    unfold mask in Hj. rewrite list_lookup_fmap, Hu0 in Hj.
    injection Hj as Hj.
    assert (H1 : mask !! 1%nat = Some true).
    { unfold mask. rewrite list_lookup_fmap, Hu1. cbn. f_equal.
      apply (flt_trans (Fin (fs / 2)) u0 u1); assumption. }
    assert (H10 : 1%nat = 0%nat).
    { apply (proj1 (py_any_false_iff _) Hany). unfold np_where.
      apply elem_of_where_from. now exists 1%nat. }
    discriminate. }
  rewrite !keep_unmasked_all by congruence. reflexivity.
Qed.



(** ** The filter bank and the level loop *)

Section PipelineFacts.
Context `{SignalLib}.

Lemma py_setitem_ret {A : Type} (l : list A) (i : nat) (v : A) :
  (i < length l)%nat -> py_setitem l i v = Ret (<[i := v]> l).
Proof.
  intros Hi. unfold py_setitem.
  now rewrite (proj2 (Nat.ltb_lt _ _) Hi).
Qed.

(** The filter-design loop returns exactly when every band has a
    factor and [signal.butter] accepts its corner frequencies; it then
    holds the filter of band [idx + j] at position [idx + j]. *)
Lemma butter_loop_spec (edges : list (npfloat * npfloat)) :
  forall (idx : nat) (fs : R) (order : Z) (factor : list Z)
         (sos sos' : list sos_t),
    length sos = (idx + length edges)%nat ->
    butter_loop idx edges fs order factor sos = Ret sos' <->
    length sos' = length sos /\
    (forall j : nat, (j < idx)%nat -> sos' !! j = sos !! j) /\
    (forall (j : nat) (lower upper : npfloat),
       edges !! j = Some (lower, upper) ->
       exists (q : Z) (s : sos_t),
         factor !! (idx + j)%nat = Some q /\
         butter order (corner fs q lower) (corner fs q upper) = inr s /\
         sos' !! (idx + j)%nat = Some s).
Proof.
  induction edges as [| [lower upper] edges IH];
    intros idx fs order factor sos sos' Hlen.
  - cbn in Hlen. cbn [butter_loop]. split.
    + intros [= <-]. repeat split; intros; [discriminate].
    + intros (Hl & Hlow & _). f_equal. symmetry. apply list_eq. intros i.
      destruct (decide (i < idx)%nat) as [Hi | Hi]; [now apply Hlow |].
      rewrite !lookup_ge_None_2 by lia. reflexivity.
  - cbn in Hlen. cbn [butter_loop]. unfold py_getitem.
    destruct (factor !! idx) as [q |] eqn:Hq; cbn [mbind outcome_bind].
    2:{ split; [discriminate |]. intros (_ & _ & Hbands).
        destruct (Hbands 0%nat lower upper eq_refl) as (q & s & Hq' & _).
        replace (idx + 0)%nat with idx in Hq' by lia. congruence. }
    change (fdiv ?e (fdiv (fdiv (Fin fs) (Fin (IZR q))) (Fin 2)))
      with (corner fs q e).
    destruct (butter order (corner fs q lower) (corner fs q upper))
      as [e | s] eqn:Hs; cbn [call mbind outcome_bind].
    { split; [discriminate |]. intros (_ & _ & Hbands).
      destruct (Hbands 0%nat lower upper eq_refl) as (q' & s & Hq' & Hs' & _).
      replace (idx + 0)%nat with idx in Hq' by lia. congruence. }
    rewrite py_setitem_ret by lia. cbn [mbind outcome_bind].
    rewrite IH by (rewrite length_insert; lia).
    rewrite length_insert. split.
    + intros (Hl & Hlow & Hbands). split; [assumption |]. split.
      * intros j Hj. rewrite Hlow by lia.
        apply list_lookup_insert_ne. lia.
      * intros [| j] lower' upper' Hj.
        -- injection Hj as <- <-. exists q, s.
           replace (idx + 0)%nat with idx by lia.
           repeat split; try assumption.
           rewrite Hlow by lia. apply list_lookup_insert_eq. lia.
        -- destruct (Hbands j lower' upper' Hj) as (q' & s' & Hq' & Hs' & Hl').
           exists q', s'.
           replace (idx + S j)%nat with (S idx + j)%nat by lia. auto.
    + intros (Hl & Hlow & Hbands). split; [assumption |]. split.
      * intros j Hj. destruct (decide (j = idx)) as [-> | Hne].
        -- destruct (Hbands 0%nat lower upper eq_refl)
             as (q' & s' & Hq' & Hs' & Hl').
           replace (idx + 0)%nat with idx in * by lia.
           rewrite list_lookup_insert_eq by lia. congruence.
        -- rewrite list_lookup_insert_ne by lia. apply Hlow. lia.
      * intros j lower' upper' Hj.
        destruct (Hbands (S j) lower' upper' Hj) as (q' & s' & Hq' & Hs' & Hl').
        exists q', s'.
        replace (S idx + j)%nat with (idx + S j)%nat by lia. auto.
Qed.

(** The level loop over the positions [k, ..., k + n - 1]. *)
Lemma spl_loop_spec (x : list npfloat) (factor : list Z)
    (sos : list sos_t) (n : nat) :
  forall (k : nat) (spl spl' : list npfloat),
    (k + n <= length spl)%nat ->
    spl_loop x factor sos (seq k n) spl = Ret spl' <->
    length spl' = length spl /\
    (forall j : nat, (j < k \/ k + n <= j)%nat -> spl' !! j = spl !! j) /\
    (forall j : nat, (k <= j < k + n)%nat ->
       exists (q : Z) (sd : list npfloat) (s : sos_t) (y : list npfloat),
         factor !! j = Some q /\ decimate x q = inr sd /\
         sos !! j = Some s /\ sosfilt s sd = inr y /\
         spl' !! j = Some (spl_of y)).
Proof.
  induction n as [| n IH]; intros k spl spl' Hlen.
  - cbn [seq spl_loop]. split.
    + intros [= <-]. repeat split; intros; lia.
    + intros (Hl & Hout & _). f_equal. symmetry. apply list_eq. intros i.
      apply Hout. lia.
  - cbn [seq spl_loop]. unfold py_getitem.
    destruct (factor !! k) as [q |] eqn:Hq; cbn [mbind outcome_bind].
    2:{ split; [discriminate |]. intros (_ & _ & Hin).
        destruct (Hin k ltac:(lia)) as (q & ? & ? & ? & Hq' & _). congruence. }
    destruct (decimate x q) as [e | sd] eqn:Hsd; cbn [call mbind outcome_bind].
    { split; [discriminate |]. intros (_ & _ & Hin).
      destruct (Hin k ltac:(lia)) as (q' & ? & ? & ? & Hq' & Hsd' & _).
      congruence. }
    destruct (sos !! k) as [s |] eqn:Hs; cbn [mbind outcome_bind].
    2:{ split; [discriminate |]. intros (_ & _ & Hin).
        destruct (Hin k ltac:(lia)) as (? & ? & s & ? & _ & _ & Hs' & _).
        congruence. }
    destruct (sosfilt s sd) as [e | y] eqn:Hy; cbn [call mbind outcome_bind].
    { split; [discriminate |]. intros (_ & _ & Hin).
      destruct (Hin k ltac:(lia))
        as (q' & sd' & s' & y' & Hq' & Hsd' & Hs' & Hy' & _).
      congruence. }
    rewrite py_setitem_ret by lia. cbn [mbind outcome_bind].
    rewrite IH by (rewrite length_insert; lia).
    rewrite length_insert. split.
    + intros (Hl & Hout & Hin). split; [assumption |]. split.
      * intros j Hj. rewrite Hout by lia.
        apply list_lookup_insert_ne. lia.
      * intros j Hj. destruct (decide (j = k)) as [-> | Hne].
        -- exists q, sd, s, y. repeat split; try assumption.
           rewrite Hout by lia. apply list_lookup_insert_eq. lia.
        -- apply Hin. lia.
    + intros (Hl & Hout & Hin). split; [assumption |]. split.
      * intros j Hj. destruct (decide (j = k)) as [-> | Hne].
        -- destruct (Hin k ltac:(lia))
             as (q' & sd' & s' & y' & Hq' & Hsd' & Hs' & Hy' & Hl').
           rewrite list_lookup_insert_eq by lia. congruence.
        -- rewrite list_lookup_insert_ne by lia. apply Hout. lia.
      * intros j Hj. apply Hin. lia.
Qed.

(** Only the [while] loop of the frequency generator can run out of
    fuel. *)
Lemma deleteOuters_no_timeout freq freq_d freq_u fs :
  _deleteOuters freq freq_d freq_u fs <> Timeout.
Proof.
  unfold _deleteOuters, np_delete. destruct (py_any _); [| discriminate].
  repeat (destruct (forallb _ _); cbn [mbind outcome_bind]);
    discriminate.
Qed.

Lemma butter_loop_no_timeout (edges : list (npfloat * npfloat)) :
  forall idx fs order factor sos,
    butter_loop idx edges fs order factor sos <> Timeout.
Proof.
  induction edges as [| [lower upper] edges IH];
    intros idx fs order factor sos; cbn [butter_loop]; [discriminate |].
  unfold py_getitem, py_setitem.
  destruct (factor !! idx); cbn [mbind outcome_bind]; [| discriminate].
  destruct (butter _ _ _); cbn [call mbind outcome_bind]; [discriminate |].
  destruct (Nat.ltb _ _); cbn [mbind outcome_bind]; [apply IH | discriminate].
Qed.

Lemma spl_loop_no_timeout x factor sos (jjs : list nat) :
  forall spl, spl_loop x factor sos jjs spl <> Timeout.
Proof.
  induction jjs as [| jj jjs IH]; intros spl; cbn [spl_loop];
    [discriminate |].
  unfold py_getitem, py_setitem.
  destruct (factor !! jj); cbn [mbind outcome_bind]; [| discriminate].
  destruct (decimate _ _); cbn [call mbind outcome_bind]; [discriminate |].
  destruct (sos !! jj); cbn [mbind outcome_bind]; [| discriminate].
  destruct (sosfilt _ _); cbn [call mbind outcome_bind]; [discriminate |].
  destruct (Nat.ltb _ _); cbn [mbind outcome_bind]; [apply IH | discriminate].
Qed.
End PipelineFacts.

Lemma getANSIFrequencies_lengths fuel b limits freq freq_d freq_u :
  getANSIFrequencies fuel b limits = Ret (freq, freq_d, freq_u) ->
  length freq_d = length freq /\ length freq_u = length freq.
Proof.
  unfold getANSIFrequencies.
  destruct (_initindex _ _ _ _) as [x | |]; cbn [mbind outcome_bind];
    try discriminate.
  destruct (ansi_loop _ _ _ _ _ _) as [freq0 | |]; cbn [mbind outcome_bind];
    try discriminate.
  destruct (_bandedge _ _) as [E | |]; cbn [mbind outcome_bind mret outcome_ret];
    try discriminate.
  intros [= <- <- <-]. now rewrite !length_map.
Qed.

Lemma genfreqs_lengths fuel limits b fs freq freq_d freq_u :
  _genfreqs fuel limits b fs = Ret (freq, freq_d, freq_u) ->
  length freq_d = length freq /\ length freq_u = length freq.
Proof.
  unfold _genfreqs.
  destruct (getANSIFrequencies fuel b limits) as [[[f0 d0] u0] | |] eqn:Hgen;
    cbn [mbind outcome_bind]; try discriminate.
  apply getANSIFrequencies_lengths in Hgen as [Hd Hu].
  now apply deleteOuters_lengths.
Qed.

Section PipelineResults.
Context `{SignalLib}.

Lemma butter_loop_progress (edges : list (npfloat * npfloat)) :
  forall (idx : nat) (fs : R) (order : Z) (factor : list Z)
         (sos : list sos_t),
    length sos = (idx + length edges)%nat ->
    (forall (j : nat) (lower upper : npfloat),
       edges !! j = Some (lower, upper) ->
       exists (q : Z) (s : sos_t),
         factor !! (idx + j)%nat = Some q /\
         butter order (corner fs q lower) (corner fs q upper) = inr s) ->
    exists sos' : list sos_t,
      butter_loop idx edges fs order factor sos = Ret sos'.
Proof.
  induction edges as [| [lower upper] edges IH];
    intros idx fs order factor sos Hlen Hbands.
  - eexists. reflexivity.
  - cbn in Hlen. cbn [butter_loop]. unfold py_getitem.
    destruct (Hbands 0%nat lower upper eq_refl) as (q & s & Hq & Hs).
    replace (idx + 0)%nat with idx in Hq by lia.
    rewrite Hq. cbn [mbind outcome_bind].
    change (fdiv ?e (fdiv (fdiv (Fin fs) (Fin (IZR q))) (Fin 2)))
      with (corner fs q e).
    rewrite Hs. cbn [call mbind outcome_bind].
    rewrite py_setitem_ret by lia. cbn [mbind outcome_bind].
    apply IH; [rewrite length_insert; lia |].
    intros j lower' upper' Hj.
    replace (S idx + j)%nat with (idx + S j)%nat by lia.
    now apply Hbands.
Qed.

Lemma spl_loop_progress (x : list npfloat) (factor : list Z)
    (sos : list sos_t) (n : nat) :
  forall (k : nat) (spl : list npfloat),
    (k + n <= length spl)%nat ->
    (forall j : nat, (k <= j < k + n)%nat ->
       exists (q : Z) (sd : list npfloat) (s : sos_t) (y : list npfloat),
         factor !! j = Some q /\ decimate x q = inr sd /\
         sos !! j = Some s /\ sosfilt s sd = inr y) ->
    exists spl' : list npfloat,
      spl_loop x factor sos (seq k n) spl = Ret spl'.
Proof.
  induction n as [| n IH]; intros k spl Hlen Hin.
  - eexists. reflexivity.
  - cbn [seq spl_loop]. unfold py_getitem.
    destruct (Hin k ltac:(lia)) as (q & sd & s & y & Hq & Hsd & Hs & Hy).
    rewrite Hq. cbn [mbind outcome_bind].
    rewrite Hsd. cbn [call mbind outcome_bind].
    rewrite Hs. cbn [mbind outcome_bind].
    rewrite Hy. cbn [call mbind outcome_bind].
    rewrite py_setitem_ret by lia. cbn [mbind outcome_bind].
    apply IH; [rewrite length_insert; lia |].
    intros j Hj. apply Hin. lia.
Qed.

(** What a returned result of [octaveFilter] looks like, band by band. *)
Lemma octaveFilter_ret_inv (fuel : nat) (x : list npfloat)
    (fs fraction : R) (order : Z) (limits : option (R * R))
    (spl freq : list npfloat) :
  octaveFilter fuel x fs fraction order limits = Ret (spl, freq) ->
  exists freq_d freq_u : list npfloat,
    _genfreqs fuel (Some (default (12, 20000) limits)) fraction fs
      = Ret (freq, freq_d, freq_u) /\
    length spl = length freq /\
    forall i : nat, (i < length freq)%nat ->
      exists (d u : npfloat) (q : Z) (s : sos_t) (sd y : list npfloat),
        freq_d !! i = Some d /\ freq_u !! i = Some u /\
        _downsamplingfactor freq_u fs !! i = Some q /\
        butter order (corner fs q d) (corner fs q u) = inr s /\
        decimate x q = inr sd /\
        sosfilt s sd = inr y /\
        spl !! i = Some (spl_of y).
Proof.
  unfold octaveFilter, _typesignal.
  set (lim := default (12, 20000) limits).
  destruct (_genfreqs fuel (Some lim) fraction fs)
    as [[[freq0 freq_d] freq_u] | e |] eqn:Hgen; cbn [mbind outcome_bind];
    try discriminate.
  destruct (genfreqs_lengths _ _ _ _ _ _ _ Hgen) as [Hd Hu].
  set (factor := _downsamplingfactor freq_u fs).
  unfold _butterSOSfilter.
  destruct (butter_loop 0 _ fs order factor _) as [sos | |] eqn:Hbut;
    cbn [mbind outcome_bind]; try discriminate.
  destruct (spl_loop x factor sos _ _) as [spl0 | |] eqn:Hloop;
    cbn [mbind outcome_bind mret outcome_ret]; try discriminate.
  intros [= <- <-]. exists freq_d, freq_u.
  apply butter_loop_spec in Hbut as (_ & _ & Hbands);
    [| rewrite length_replicate, length_zip_with; lia].
  apply spl_loop_spec in Hloop as (Hl & _ & Hin);
    [| rewrite length_replicate; lia].
  split; [reflexivity |].
  split; [now rewrite Hl, length_replicate |].
  intros i Hi.
  destruct (lookup_lt_is_Some_2 freq_d i) as [d Hdi]; [lia |].
  destruct (lookup_lt_is_Some_2 freq_u i) as [u Hui]; [lia |].
  assert (Hedge : zip freq_d freq_u !! i = Some (d, u)).
  { rewrite lookup_zip_with, Hdi. cbn. now rewrite Hui. }
  destruct (Hbands i d u Hedge) as (q & s & Hq & Hs & Hsi).
  destruct (Hin i ltac:(lia)) as (q' & sd & s' & y & Hq' & Hsd & Hs' & Hy & Hv).
  cbn [Nat.add] in Hq, Hsi.
  assert (q' = q) by congruence. assert (s' = s) by congruence. subst q' s'.
  exists d, u, q, s, sd, y. repeat split; assumption.
Qed.

End PipelineResults.

(** ** Silence *)

Lemma np_sum_zero (y : list npfloat) : all_zero y -> np_sum y = Fin 0.
Proof.
  unfold np_sum. intros Hy. induction Hy as [| v y <- _ IH]; [reflexivity |].
  cbn [foldl fadd]. replace (0 + 0) with 0 by lra. exact IH.
Qed.

Lemma np_mean_zero (y : list npfloat) :
  all_zero y -> y <> [] -> np_mean y = Fin 0.
Proof.
  intros Hy Hne. unfold np_mean. rewrite np_sum_zero by assumption.
  assert (Hlen : INR (length y) <> 0).
  { apply not_0_INR. destruct y; [contradiction | discriminate]. }
  rewrite fdiv_fin by assumption. f_equal. unfold Rdiv. apply Rmult_0_l.
Qed.

(** A signal of zeros has standard deviation zero. *)
Lemma np_std_zero (y : list npfloat) :
  all_zero y -> y <> [] -> np_std y = Fin 0.
Proof.
  intros Hy Hne. unfold np_std. rewrite (np_mean_zero y Hy Hne).
  rewrite np_mean_zero.
  - cbn [np_sqrt]. rewrite Rltb_false by lra. now rewrite sqrt_0.
  - unfold all_zero in *. apply Forall_fmap. eapply Forall_impl; [exact Hy |].
    intros v <-. cbn. f_equal. ring.
  - destruct y; [contradiction | discriminate].
Qed.

(** The level of a band of standard deviation zero is [-inf]. *)
Lemma spl_of_zero_std (y : list npfloat) : np_std y = Fin 0 -> spl_of y = NInf.
Proof.
  intros Hstd. unfold spl_of. rewrite Hstd.
  rewrite fdiv_fin by lra. replace (0 / 2e-5) with 0 by lra.
  unfold np_log10. rewrite Rcompare_eq. cbn [fmul].
  unfold inf_of_sign. now rewrite Rcompare_lt by lra.
Qed.

Section Silence.
Context `{SignalLib}.

(** The primitives are linear filters: on a signal of zeros they
    return a signal of zeros.  [signal.decimate] never returns an empty
    signal, and [signal.sosfilt] keeps the length of its input. *)
Hypothesis decimate_nonempty :
  forall (x : list npfloat) (q : Z) (sd : list npfloat),
    decimate x q = inr sd -> sd <> [].
Hypothesis decimate_zero :
  forall (x : list npfloat) (q : Z) (sd : list npfloat),
    all_zero x -> decimate x q = inr sd -> all_zero sd.
Hypothesis sosfilt_zero :
  forall (order : Z) (low high : npfloat) (s : sos_t)
         (sd y : list npfloat),
    butter order low high = inr s ->
    all_zero sd -> sosfilt s sd = inr y ->
    all_zero y /\ length y = length sd.

Lemma octaveFilter_timeout fuel x fs fraction order limits :
  octaveFilter fuel x fs fraction order limits = Timeout ->
  getANSIFrequencies fuel fraction (Some (default (12, 20000) limits))
    = Timeout.
Proof.
  unfold octaveFilter, _genfreqs.
  destruct (getANSIFrequencies _ _ _) as [[[f0 d0] u0] | |];
    cbn [mbind outcome_bind]; [| discriminate | reflexivity].
  destruct (_deleteOuters f0 d0 u0 fs) as [[[f1 d1] u1] | |] eqn:Hdel;
    cbn [mbind outcome_bind]; [| discriminate |].
  2:{ now apply deleteOuters_no_timeout in Hdel. }
  destruct (_butterSOSfilter _ _ _ _ _ _) as [sos | |] eqn:Hbut;
    cbn [mbind outcome_bind]; [| discriminate |].
  2:{ now apply butter_loop_no_timeout in Hbut. }
  destruct (spl_loop _ _ _ _ _) as [spl | |] eqn:Hloop;
    cbn [mbind outcome_bind]; [discriminate | discriminate |].
  now apply spl_loop_no_timeout in Hloop.
Qed.

End Silence.


(** ** A complete run on silence *)

(** The octave ratio is just below 2: [G^10 = 1000 < 1024 = 2^10]. *)
Lemma G_lt_2 : G < 2.
Proof.
  destruct (Rlt_dec G 2) as [Hlt | Hge]; [assumption | exfalso].
  assert (Hpow : Rpower 2 (INR 10) <= Rpower G (INR 10)).
  { apply Rle_Rpower_l; [apply pos_INR | lra]. }
  unfold G in Hpow at 1. rewrite Rpower_mult in Hpow.
  replace (3 / 10 * INR 10) with (INR 3) in Hpow by (cbn; lra).
  rewrite !Rpower_pow in Hpow by lra. cbn in Hpow. lra.
Qed.

Lemma band_edge_1_lt_G : band_edge 1 < G.
Proof.
  pose proof G_gt_1 as HG. unfold band_edge.
  pose proof (Rpower_lt G (1 / (2 * 1)) 1 ltac:(lra) ltac:(lra)) as Hlt.
  rewrite Rpower_1 in Hlt by lra. exact Hlt.
Qed.

(** At 44.1 kHz both reference bands lie below the Nyquist frequency
    and none is removed. *)
Lemma genfreqs_reference_bands :
  _genfreqs 1 (Some (1000, 1000)) 1 44100 =
  Ret ([Fin 1000; Fin (G * 1000)],
       [Fin (1000 / band_edge 1); Fin (G * 1000 / band_edge 1)],
       [Fin (1000 * band_edge 1); Fin (G * 1000 * band_edge 1)]).
Proof.
  pose proof G_gt_1 as HG. pose proof G_lt_2 as HG2.
  pose proof (band_edge_gt_1 1 ltac:(lra)) as HE.
  pose proof band_edge_1_lt_G as HEG.
  unfold _genfreqs.
  rewrite (proj2 (getANSIFrequencies_reference_bands 1 ltac:(lia))).
  cbn [mbind outcome_bind]. unfold _deleteOuters. cbn [map fgtb fltb].
  rewrite !Rltb_false by nra. reflexivity.
Qed.


(** * Further properties of the frequency generator *)





Lemma initindex_never_raises f b :
  exists x : npfloat, _initindex f fr G b = Ret x.
Proof.
  unfold _initindex. rewrite py_div_ret by (unfold fr; lra).
  cbn [mbind outcome_bind]. destruct (py_truthy _); eexists; reflexivity.
Qed.

Lemma bandedge_zero : _bandedge G 0 = Raise ZeroDivisionError.
Proof.
  unfold _bandedge, py_div. rewrite Reqb_true by lra. reflexivity.
Qed.

(** X3.  A fraction of zero makes the band-edge ratio divide by zero:
    [getANSIFrequencies] raises [ZeroDivisionError] at the first loop
    test, whatever the limits, and so does [octaveFilter], before any
    primitive is called. *)
Theorem zero_fraction_raises_ZeroDivisionError :
  (forall (fuel : nat) (limits : option (R * R)),
     getANSIFrequencies fuel 0 limits = Raise ZeroDivisionError) /\
  (forall (lib : SignalLib) (fuel : nat) (x : list npfloat) (fs : R)
          (order : Z) (limits : option (R * R)),
     @octaveFilter lib fuel x fs 0 order limits = Raise ZeroDivisionError).
Proof.
  assert (Hgen : forall (fuel : nat) (limits : option (R * R)),
            getANSIFrequencies fuel 0 limits = Raise ZeroDivisionError).
  { intros fuel limits. unfold getANSIFrequencies.
    destruct (initindex_never_raises (fst (default (12, 20000) limits)) 0)
      as [x Hx].
    cbv zeta. rewrite Hx. cbn [mbind outcome_bind].
    destruct fuel; cbn [ansi_loop]; rewrite bandedge_zero; reflexivity. }
  split; [exact Hgen |].
  intros lib fuel x fs order limits. unfold octaveFilter, _genfreqs.
  cbv zeta. rewrite Hgen. reflexivity.
Qed.

Lemma exp_le_mono x y : x <= y -> exp x <= exp y.
Proof.
  intros [Hlt | ->]; [left; now apply exp_increasing | right; reflexivity].
Qed.

(** Rounding moves a number by at most one half. *)
Lemma round_half_even_bound r :
  IZR (round_half_even r) - 1 / 2 <= r <= IZR (round_half_even r) + 1 / 2.
Proof.
  unfold round_half_even. pose proof (Zfloor_bound r) as [Hlo Hhi].
  destruct (Rcompare_spec (r - IZR (Zfloor r)) (1 / 2)) as [Heq | Hlt | Hgt].
  - destruct (Z.even (Zfloor r)); rewrite ?plus_IZR; lra.
  - lra.
  - rewrite plus_IZR. lra.
Qed.

Lemma initindex_value f b :
  0 < b -> 0 < f ->
  _initindex f fr G b = Ret (Fin (IZR (round_half_even (start_position b f)))).
Proof.
  intros Hb Hf. pose proof ln_G_pos as HlG.
  assert (Hq : 0 < f / fr) by (unfold fr; lra).
  unfold _initindex, start_position.
  rewrite py_div_ret by (unfold fr; lra). osimpl.
  rewrite np_log_G, (np_log_pos _ Hq).
  destruct (py_truthy _); fsimpl; rewrite Reqb_false by lra; reflexivity.
Qed.

(** Center frequencies and the band-edge ratio as exponentials. *)
Lemma center_exp b n :
  center b n =
  exp ((if py_truthy (py_mod b 2)
        then (IZR n - 30) / b
        else (2 * IZR n - 59) / (2 * b)) * ln G) * fr.
Proof. unfold center, Rpower. now destruct (py_truthy _). Qed.

Lemma band_edge_exp b : band_edge b = exp (1 / (2 * b) * ln G).
Proof. reflexivity. Qed.

(** The lower limit lies between the edges of the band of the starting
    index. *)
Lemma first_band_bounds b f :
  0 < b -> 0 < f ->
  center b (round_half_even (start_position b f)) / band_edge b <= f /\
  f <= center b (round_half_even (start_position b f)) * band_edge b.
Proof.
  intros Hb Hf. pose proof ln_G_pos as HlG.
  pose proof (round_half_even_bound (start_position b f)) as [Hlo Hhi].
  set (n0 := round_half_even (start_position b f)) in *.
  assert (Hq : 0 < f / fr) by (unfold fr; lra).
  assert (Hf' : f = exp (ln (f / fr)) * fr).
  { rewrite exp_ln by assumption. unfold fr. lra. }
  set (L := ln (f / fr)) in *.
  rewrite center_exp, band_edge_exp.
  set (e := (if py_truthy (py_mod b 2) then (IZR n0 - 30) / b
             else (2 * IZR n0 - 59) / (2 * b)) * ln G).
  set (h := 1 / (2 * b) * ln G).
  assert (Hk : 0 < ln G / b) by (apply Rdiv_lt_0_compat; lra).
  assert (HL : b * L / ln G * (ln G / b) = L) by (field; lra).
  assert (He : e - h <= L <= e + h).
  { unfold e, h, start_position in *. fold L in Hlo, Hhi.
    destruct (py_truthy _).
    - assert (Ht : (b * L + 30 * ln G) / ln G = b * L / ln G + 30)
        by (field; lra).
      rewrite Ht in Hlo, Hhi.
      assert (Hb1 : (IZR n0 - 30 - 1 / 2) * (ln G / b) <= L).
      { rewrite <- HL. apply Rmult_le_compat_r; lra. }
      assert (Hb2 : L <= (IZR n0 - 30 + 1 / 2) * (ln G / b)).
      { rewrite <- HL. apply Rmult_le_compat_r; lra. }
      split.
      + replace ((IZR n0 - 30) / b * ln G - 1 / (2 * b) * ln G)
          with ((IZR n0 - 30 - 1 / 2) * (ln G / b)) by (field; lra).
        exact Hb1.
      + replace ((IZR n0 - 30) / b * ln G + 1 / (2 * b) * ln G)
          with ((IZR n0 - 30 + 1 / 2) * (ln G / b)) by (field; lra).
        exact Hb2.
    - assert (Ht : (2 * b * L + 59 * ln G) / (2 * ln G)
                   = b * L / ln G + 59 / 2) by (field; lra).
      rewrite Ht in Hlo, Hhi.
      assert (Hb1 : (IZR n0 - 30) * (ln G / b) <= L).
      { rewrite <- HL. apply Rmult_le_compat_r; lra. }
      assert (Hb2 : L <= (IZR n0 - 29) * (ln G / b)).
      { rewrite <- HL. apply Rmult_le_compat_r; lra. }
      split.
      + replace ((2 * IZR n0 - 59) / (2 * b) * ln G - 1 / (2 * b) * ln G)
          with ((IZR n0 - 30) * (ln G / b)) by (field; lra).
        exact Hb1.
      + replace ((2 * IZR n0 - 59) / (2 * b) * ln G + 1 / (2 * b) * ln G)
          with ((IZR n0 - 29) * (ln G / b)) by (field; lra).
        exact Hb2. }
  destruct He as [He1 He2].
  apply exp_le_mono in He1, He2.
  unfold Rminus in He1. rewrite exp_plus, exp_Ropp in He1.
  rewrite exp_plus in He2.
  pose proof (exp_pos e). pose proof (exp_pos h). pose proof (exp_pos L).
  rewrite Hf' at 1 2. unfold fr. split.
  - unfold Rdiv. apply Rle_trans with (exp e * / exp h * 1000); [right; ring |].
    apply Rmult_le_compat_r; [lra | assumption].
  - apply Rle_trans with (exp e * exp h * 1000); [| right; ring].
    apply Rmult_le_compat_r; [lra | assumption].
Qed.

(** The run of the generator, with the starting index made explicit. *)
Lemma getANSIFrequencies_run_from b f_min f_max :
  0 < b -> 0 < f_min -> 0 < f_max ->
  exists m : nat,
    (1 <= m)%nat /\
    f_max <= center b (round_half_even (start_position b f_min) + Z.of_nat m)
             * band_edge b /\
    forall fuel : nat, (m <= fuel)%nat ->
      getANSIFrequencies fuel b (Some (f_min, f_max)) =
      Ret (bands b (round_half_even (start_position b f_min)) (S m),
           map (fun v => fdiv v (Fin (band_edge b)))
               (bands b (round_half_even (start_position b f_min)) (S m)),
           map (fun v => fmul v (Fin (band_edge b)))
               (bands b (round_half_even (start_position b f_min)) (S m))).
Proof.
  intros Hb Hmin Hmax.
  destruct (getANSIFrequencies_run b f_min f_max Hb Hmin Hmax)
    as (n0 & m & Hn0 & Hm & _ & Hat & Hrun).
  rewrite initindex_value in Hn0 by assumption.
  injection Hn0 as Hn0. apply eq_IZR in Hn0. subst n0.
  exists m. auto.
Qed.



(** Each center frequency is the previous one times [G^(1/b)]. *)
Lemma center_succ b n :
  0 < b -> center b (n + 1) = center b n * Rpower G (1 / b).
Proof.
  intros Hb. unfold center. rewrite plus_IZR.
  destruct (py_truthy _).
  - rewrite Rmult_assoc, (Rmult_comm fr), <- Rmult_assoc, <- Rpower_plus.
    do 2 f_equal. field. lra.
  - rewrite Rmult_assoc, (Rmult_comm fr), <- Rmult_assoc, <- Rpower_plus.
    do 2 f_equal. field. lra.
Qed.



Lemma center_le b n n' : 0 < b -> (n <= n')%Z -> center b n <= center b n'.
Proof.
  intros Hb Hn. destruct (Z.eq_dec n n') as [-> | Hne]; [right; reflexivity |].
  left. apply center_lt; [assumption | lia].
Qed.

Lemma center_30_odd b :
  py_truthy (py_mod b 2) = true -> center b 30 = 1000.
Proof.
  intros Hodd. unfold center, fr. rewrite Hodd.
  replace ((30 - 30) / b) with 0 by (unfold Rdiv; ring).
  rewrite Rpower_O by (pose proof G_gt_1; lra). lra.
Qed.


Lemma py_truthy_mod_3 : py_truthy (py_mod 3 2) = true.
Proof.
  unfold py_truthy, py_mod.
  assert (Hfloor : Zfloor (3 / 2) = 1%Z) by (apply Zfloor_eq; lra).
  rewrite Hfloor, Reqb_false by lra. reflexivity.
Qed.


(** * Further properties of the Nyquist clipping *)

Lemma np_where_none (mask : list bool) :
  (forall j : nat, mask !! j <> Some true) -> py_any (np_where mask) = false.
Proof.
  intros Hnone. apply py_any_false_iff. intros i Hi.
  unfold np_where in Hi. apply elem_of_where_from in Hi as (j & _ & Hj).
  now apply Hnone in Hj.
Qed.

Lemma nyquist_mask_after_clip (freq_u : list npfloat) (lim : npfloat) (j : nat) :
  map (fun u => fgtb u lim)
      (keep_unmasked freq_u (map (fun u => fgtb u lim) freq_u)) !! j
  <> Some true.
Proof.
  rewrite list_lookup_fmap.
  destruct (keep_unmasked _ _ !! j) as [u |] eqn:Hu; [| discriminate].
  apply list_elem_of_lookup_2 in Hu.
  apply (keep_unmasked_elem (fun u => fgtb u lim)) in Hu as [_ Hu].
  cbn. congruence.
Qed.

(** X7.  On three sequences of one length [_deleteOuters] always
    returns (its deletions stay in range), the three results again have
    one length, and clipping the result once more changes nothing. *)
Theorem deleteOuters_idempotent (freq freq_d freq_u : list npfloat) (fs : R) :
  length freq_d = length freq -> length freq_u = length freq ->
  exists freq' freq_d' freq_u' : list npfloat,
    _deleteOuters freq freq_d freq_u fs = Ret (freq', freq_d', freq_u') /\
    length freq_d' = length freq' /\ length freq_u' = length freq' /\
    _deleteOuters freq' freq_d' freq_u' fs = Ret (freq', freq_d', freq_u').
Proof.
  intros Hd Hu.
  pose proof (deleteOuters_cases freq freq_d freq_u fs Hd Hu) as Hcases.
  cbv zeta in Hcases.
  set (mask := map (fun u => fgtb u (Fin (fs / 2))) freq_u) in *.
  destruct (py_any (np_where mask)) eqn:Hany.
  - exists (keep_unmasked freq mask), (keep_unmasked freq_d mask),
      (keep_unmasked freq_u mask).
    assert (Hd' : length (keep_unmasked freq_d mask)
                  = length (keep_unmasked freq mask))
      by now apply length_keep_unmasked.
    assert (Hu' : length (keep_unmasked freq_u mask)
                  = length (keep_unmasked freq mask))
      by now apply length_keep_unmasked.
    repeat split; try assumption.
    rewrite deleteOuters_cases by assumption.
    rewrite np_where_none; [reflexivity |].
    intros j. apply nyquist_mask_after_clip.
  - exists freq, freq_d, freq_u. repeat split; try assumption.
Qed.

Lemma deleteOuters_idempotent_witness :
  length [Fin 354; Fin 707; Fin 1414] = length [Fin 500; Fin 1000; Fin 2000] /\
  length [Fin 707; Fin 1414; Fin 2828] = length [Fin 500; Fin 1000; Fin 2000] /\
  exists freq' freq_d' freq_u' : list npfloat,
    _deleteOuters [Fin 500; Fin 1000; Fin 2000] [Fin 354; Fin 707; Fin 1414]
      [Fin 707; Fin 1414; Fin 2828] 4000 = Ret (freq', freq_d', freq_u') /\
    length freq_d' = length freq' /\ length freq_u' = length freq' /\
    _deleteOuters freq' freq_d' freq_u' 4000 = Ret (freq', freq_d', freq_u').
Proof.
  split; [reflexivity |]. split; [reflexivity |].
  exact (deleteOuters_idempotent [Fin 500; Fin 1000; Fin 2000]
           [Fin 354; Fin 707; Fin 1414] [Fin 707; Fin 1414; Fin 2828] 4000
           eq_refl eq_refl).
Defined.

(** A mask that stays raised once it is raised is a run of [false]
    followed by a run of [true]. *)
Lemma mask_shape (mask : list bool) :
  (forall i j : nat, (i < j < length mask)%nat ->
     mask !! i = Some true -> mask !! j = Some true) ->
  exists k : nat,
    (k <= length mask)%nat /\
    (forall j : nat, (j < k)%nat -> mask !! j = Some false) /\
    (forall j : nat, (k <= j < length mask)%nat -> mask !! j = Some true).
Proof.
  induction mask as [| m mask IH]; intros Hup.
  - exists 0%nat. repeat split; cbn; intros; lia.
  - destruct m.
    + exists 0%nat. repeat split; [cbn; lia | intros; lia |].
      intros j Hj. destruct j as [| j]; [reflexivity |].
      apply (Hup 0%nat (S j)); [lia | reflexivity].
    + destruct IH as (k & Hk & Hfalse & Htrue).
      { intros i j Hij Hi. apply (Hup (S i) (S j)); [cbn; lia | exact Hi]. }
      exists (S k). repeat split; [cbn; lia | |].
      * intros [| j] Hj; [reflexivity | apply Hfalse; lia].
      * intros [| j] Hj; [lia | apply Htrue; cbn in Hj; lia].
Qed.

Lemma keep_unmasked_take {A : Type} (arr : list A) (mask : list bool) (k : nat) :
  length arr = length mask ->
  (forall j : nat, (j < k)%nat -> mask !! j = Some false) ->
  (forall j : nat, (k <= j < length mask)%nat -> mask !! j = Some true) ->
  keep_unmasked arr mask = take k arr.
Proof.
  revert mask k. induction arr as [| a arr IH]; intros [| m mask] k Hlen Hf Ht;
    try discriminate; [now destruct k |].
  injection Hlen as Hlen. unfold keep_unmasked in *. cbn [zip zip_with].
  destruct k as [| k].
  - pose proof (Ht 0%nat ltac:(cbn; lia)) as H0. injection H0 as ->.
    rewrite filter_cons_False by (cbn; discriminate).
    apply (IH mask 0%nat); [assumption | intros; lia |].
    intros j Hj. apply (Ht (S j)). cbn. lia.
  - pose proof (Hf 0%nat ltac:(lia)) as H0. injection H0 as ->.
    rewrite filter_cons_True by reflexivity. cbn. f_equal.
    apply (IH mask k); [assumption | |].
    + intros j Hj. apply (Hf (S j)). lia.
    + intros j Hj. apply (Ht (S j)). cbn. lia.
Qed.

(** X8.  On a band set of two bands or more whose upper edges strictly
    increase, [_deleteOuters] keeps a prefix: the first [k] bands of
    each of the three sequences, where the bands from position [k] on
    are exactly those whose upper edge is above [fs/2]. *)
Theorem deleteOuters_keeps_prefix (freq freq_d freq_u : list npfloat) (fs : R) :
  length freq_d = length freq -> length freq_u = length freq ->
  increasing freq_u -> (2 <= length freq_u)%nat ->
  exists k : nat,
    (k <= length freq_u)%nat /\
    _deleteOuters freq freq_d freq_u fs =
      Ret (take k freq, take k freq_d, take k freq_u) /\
    forall (j : nat) (u : npfloat),
      freq_u !! j = Some u ->
      (fgtb u (Fin (fs / 2)) = true <-> (k <= j)%nat).
Proof.
  intros Hd Hu Hinc Hlen.
  destruct (deleteOuters_clips_increasing freq freq_d freq_u fs Hd Hu Hinc Hlen)
    as [Hrun _].
  set (mask := map (fun u => fgtb u (Fin (fs / 2))) freq_u) in *.
  assert (Hm : length mask = length freq_u) by (unfold mask; now rewrite length_map).
  destruct (mask_shape mask) as (k & Hk & Hfalse & Htrue).
  { intros i j Hij Hi. rewrite Hm in Hij.
    destruct (lookup_lt_is_Some_2 freq_u i) as [ui Hui]; [lia |].
    destruct (lookup_lt_is_Some_2 freq_u j) as [uj Huj]; [lia |].
    unfold mask in *. rewrite list_lookup_fmap, Hui in Hi.
    rewrite list_lookup_fmap, Huj. cbn in *. f_equal.
    injection Hi as Hi.
    apply (flt_trans (Fin (fs / 2)) ui uj); [exact Hi |].
    apply (Hinc i j); [lia | assumption ..]. }
  exists k. split; [lia |]. split.
  - rewrite Hrun. rewrite !(keep_unmasked_take _ mask k) by (assumption || congruence).
    reflexivity.
  - intros j u Hj.
    assert (Hmj : mask !! j = Some (fgtb u (Fin (fs / 2)))).
    { unfold mask. now rewrite list_lookup_fmap, Hj. }
    apply lookup_lt_Some in Hj.
    destruct (fgtb u (Fin (fs / 2))) eqn:Habove;
      destruct (le_lt_dec k j) as [Hkj | Hjk].
    + split; auto.
    + rewrite Hfalse in Hmj by lia. discriminate.
    + rewrite Htrue in Hmj by lia. discriminate.
    + split; [discriminate | lia].
Qed.

Lemma deleteOuters_keeps_prefix_witness :
  length [Fin 354; Fin 707; Fin 1414] = length [Fin 500; Fin 1000; Fin 2000] /\
  length [Fin 707; Fin 1414; Fin 2828] = length [Fin 500; Fin 1000; Fin 2000] /\
  increasing [Fin 707; Fin 1414; Fin 2828] /\
  (2 <= length [Fin 707; Fin 1414; Fin 2828])%nat /\
  exists k : nat,
    (k <= length [Fin 707; Fin 1414; Fin 2828])%nat /\
    _deleteOuters [Fin 500; Fin 1000; Fin 2000] [Fin 354; Fin 707; Fin 1414]
      [Fin 707; Fin 1414; Fin 2828] 4000 =
      Ret (take k [Fin 500; Fin 1000; Fin 2000],
           take k [Fin 354; Fin 707; Fin 1414],
           take k [Fin 707; Fin 1414; Fin 2828]) /\
    forall (j : nat) (u : npfloat),
      [Fin 707; Fin 1414; Fin 2828] !! j = Some u ->
      (fgtb u (Fin (4000 / 2)) = true <-> (k <= j)%nat).
Proof.
  assert (Hinc : increasing [Fin 707; Fin 1414; Fin 2828]).
  { intros i j a b Hij Hi Hj.
    destruct i as [| [| [| i]]], j as [| [| [| j]]];
      try lia; try discriminate;
      injection Hi as <-; injection Hj as <-; apply flt_fin; lra. }
  assert (Hlen : (2 <= length [Fin 707; Fin 1414; Fin 2828])%nat) by (cbn; lia).
  split; [reflexivity |]. split; [reflexivity |].
  split; [assumption |]. split; [assumption |].
  exact (deleteOuters_keeps_prefix [Fin 500; Fin 1000; Fin 2000]
           [Fin 354; Fin 707; Fin 1414] [Fin 707; Fin 1414; Fin 2828] 4000
           eq_refl eq_refl Hinc Hlen).
Defined.

(** * Further properties of the downsampling factors *)

(** X10.  Whatever the band edges and the sample rate (zero, negative,
    [nan] or infinite values included), [_downsamplingfactor] returns
    one factor per band and every factor lies in the range [1, 50]. *)
Theorem downsamplingfactor_always_in_range :
  forall (freq : list npfloat) (fs : R),
    length (_downsamplingfactor freq fs) = length freq /\
    forall (i : nat) (q : Z),
      _downsamplingfactor freq fs !! i = Some q -> (1 <= q <= 50)%Z.
Proof.
  intros freq fs. split; [apply length_downsamplingfactor |].
  intros i q Hq. rewrite downsamplingfactor_map, list_lookup_fmap in Hq.
  destruct (freq !! i) as [f |]; [| discriminate].
  injection Hq as <-. unfold clamp. lia.
Qed.

Lemma clamp_mono (v w : Z) : (v <= w)%Z -> (clamp v <= clamp w)%Z.
Proof. unfold clamp. lia. Qed.

Lemma downsamplingfactor_lookup_fin freq fs i u :
  0 < u -> freq !! i = Some (Fin u) ->
  _downsamplingfactor freq fs !! i = Some (clamp (Zfloor (fs / 2 / u))).
Proof.
  intros Hu Hi. rewrite downsamplingfactor_map, list_lookup_fmap, Hi.
  cbn [fmap option_fmap option_map].
  rewrite fdiv_fin by lra. cbn [astype_int]. now rewrite clamp_trunc_floor.
Qed.





(** * Further properties of [octaveFilter] *)

Lemma keep_unmasked_none {A : Type} (arr : list A) (mask : list bool) :
  length arr = length mask ->
  (forall j : nat, (j < length mask)%nat -> mask !! j = Some true) ->
  keep_unmasked arr mask = [].
Proof.
  intros Hlen Hall.
  rewrite (keep_unmasked_take arr mask 0); [reflexivity | assumption | |].
  - intros j Hj. lia.
  - intros j Hj. apply Hall. lia.
Qed.

(** With the Nyquist frequency below the lower limit every band is
    clipped. *)
Lemma genfreqs_all_above b f_min f_max fs :
  0 < b -> 0 < f_min -> 0 < f_max -> fs / 2 < f_min ->
  exists fuel0 : nat, forall fuel : nat, (fuel0 <= fuel)%nat ->
    _genfreqs fuel (Some (f_min, f_max)) b fs = Ret ([], [], []).
Proof.
  intros Hb Hmin Hmax Hfs. pose proof (band_edge_gt_1 b Hb) as HE.
  destruct (getANSIFrequencies_run_from b f_min f_max Hb Hmin Hmax)
    as (m & Hm & _ & Hrun).
  destruct (first_band_bounds b f_min Hb Hmin) as [_ Hup].
  set (n0 := round_half_even (start_position b f_min)) in *.
  exists m. intros fuel Hfuel. unfold _genfreqs.
  rewrite Hrun by assumption. cbn [mbind outcome_bind].
  set (freq_u := map (fun v => fmul v (Fin (band_edge b))) (bands b n0 (S m))).
  destruct (deleteOuters_clips_increasing (bands b n0 (S m))
              (map (fun v => fdiv v (Fin (band_edge b))) (bands b n0 (S m)))
              freq_u fs) as [Hdel _].
  - now rewrite length_map.
  - unfold freq_u. now rewrite length_map.
  - now apply upper_edges_increasing.
  - unfold freq_u. rewrite length_map, length_bands. lia.
  - rewrite Hdel.
    set (mask := map (fun u => fgtb u (Fin (fs / 2))) freq_u).
    assert (Hlen : length mask = S m).
    { unfold mask, freq_u. now rewrite !length_map, length_bands. }
    assert (Hall : forall j : nat, (j < length mask)%nat ->
                     mask !! j = Some true).
    { intros j Hj. rewrite Hlen in Hj.
      unfold mask, freq_u. rewrite !list_lookup_fmap, lookup_bands by assumption.
      cbn. f_equal. apply Rltb_true.
      pose proof (center_le b n0 (n0 + Z.of_nat j) Hb ltac:(lia)).
      nra. }
    rewrite !keep_unmasked_none;
      try assumption; unfold freq_u; rewrite ?length_map, ?length_bands;
      try lia.
    reflexivity.
Qed.



Section PipelineErrors.
Context `{SignalLib}.

(** The design loop raises the error of the first band that
    [signal.butter] rejects. *)
Lemma butter_loop_first_error (edges : list (npfloat * npfloat)) :
  forall (idx : nat) (fs : R) (order : Z) (factor : list Z)
         (sos : list sos_t) (j : nat) (lower upper : npfloat) (q : Z)
         (e : pyexn),
    length sos = (idx + length edges)%nat ->
    (forall (i : nat) (l u : npfloat),
       (i < j)%nat -> edges !! i = Some (l, u) ->
       exists (q' : Z) (s : sos_t),
         factor !! (idx + i)%nat = Some q' /\
         butter order (corner fs q' l) (corner fs q' u) = inr s) ->
    edges !! j = Some (lower, upper) ->
    factor !! (idx + j)%nat = Some q ->
    butter order (corner fs q lower) (corner fs q upper) = inl e ->
    butter_loop idx edges fs order factor sos = Raise e.
Proof.
  induction edges as [| [l0 u0] edges IH];
    intros idx fs order factor sos j lower upper q e Hlen Hbefore Hj Hq He;
    [discriminate |].
  cbn in Hlen. cbn [butter_loop]. unfold py_getitem.
  destruct j as [| j].
  - injection Hj as -> ->. replace (idx + 0)%nat with idx in Hq by lia.
    rewrite Hq. cbn [mbind outcome_bind].
    change (fdiv ?v (fdiv (fdiv (Fin fs) (Fin (IZR q))) (Fin 2)))
      with (corner fs q v).
    rewrite He. reflexivity.
  - destruct (Hbefore 0%nat l0 u0 ltac:(lia) eq_refl) as (q0 & s0 & Hq0 & Hs0).
    replace (idx + 0)%nat with idx in Hq0 by lia.
    rewrite Hq0. cbn [mbind outcome_bind].
    change (fdiv ?v (fdiv (fdiv (Fin fs) (Fin (IZR q0))) (Fin 2)))
      with (corner fs q0 v).
    rewrite Hs0. cbn [call mbind outcome_bind].
    rewrite py_setitem_ret by lia. cbn [mbind outcome_bind].
    apply (IH (S idx) fs order factor _ j lower upper q e).
    + rewrite length_insert. lia.
    + intros i l u Hi Hlu.
      replace (S idx + i)%nat with (idx + S i)%nat by lia.
      apply Hbefore; [lia | exact Hlu].
    + exact Hj.
    + now replace (S idx + j)%nat with (idx + S j)%nat by lia.
    + exact He.
Qed.

End PipelineErrors.


Lemma Reqb_true_inv a b : Reqb a b = true -> a = b.
Proof.
  unfold Reqb. destruct (Rcompare_spec a b); [auto | discriminate ..].
Qed.

Lemma bandedge_raise_inv b e :
  _bandedge G b = Raise e -> e = ZeroDivisionError /\ b = 0.
Proof.
  unfold _bandedge, py_div. destruct (Reqb (2 * b) 0) eqn:Hb; [| discriminate].
  intros [= <-]. apply Reqb_true_inv in Hb. split; [reflexivity | lra].
Qed.

Lemma ansi_loop_raise_inv (fuel : nat) :
  forall b f_max x freq_x freq e,
    ansi_loop fuel b f_max x freq_x freq = Raise e ->
    e = ZeroDivisionError /\ b = 0.
Proof.
  induction fuel as [| fuel IH]; intros b f_max x freq_x freq e;
    cbn [ansi_loop];
    destruct (_bandedge G b) as [E | e' |] eqn:HE; cbn [mbind outcome_bind];
    try discriminate.
  - destruct (fltb _ _); discriminate.
  - intros [= <-]. now apply bandedge_raise_inv.
  - destruct (fltb _ _); [apply IH | discriminate].
  - intros [= <-]. now apply bandedge_raise_inv.
Qed.

(** The only error of the frequency generator is the division by a zero
    fraction. *)
Lemma getANSIFrequencies_raise_inv fuel b limits e :
  getANSIFrequencies fuel b limits = Raise e ->
  e = ZeroDivisionError /\ b = 0.
Proof.
  unfold getANSIFrequencies. cbv zeta.
  destruct (initindex_never_raises (fst (default (12, 20000) limits)) b)
    as [x ->]. cbn [mbind outcome_bind].
  destruct (ansi_loop _ _ _ _ _ _) as [freq | e' |] eqn:Hloop;
    cbn [mbind outcome_bind]; try discriminate.
  - destruct (_bandedge G b) as [E | e' |] eqn:HE; cbn [mbind outcome_bind];
      try discriminate.
    intros [= <-]. now apply bandedge_raise_inv.
  - intros [= <-]. now apply ansi_loop_raise_inv in Hloop.
Qed.

Lemma deleteOuters_never_raises freq freq_d freq_u fs e :
  length freq_d = length freq -> length freq_u = length freq ->
  _deleteOuters freq freq_d freq_u fs <> Raise e.
Proof.
  intros Hd Hu. rewrite deleteOuters_cases by assumption.
  destruct (py_any _); discriminate.
Qed.

Section PipelineErrorSources.
Context `{SignalLib}.

Lemma butter_loop_raise_inv (edges : list (npfloat * npfloat)) :
  forall (idx : nat) (fs : R) (order : Z) (factor : list Z)
         (sos : list sos_t) (e : pyexn),
    length sos = (idx + length edges)%nat ->
    (idx + length edges <= length factor)%nat ->
    butter_loop idx edges fs order factor sos = Raise e ->
    exists low high : npfloat, butter order low high = inl e.
Proof.
  induction edges as [| [lower upper] edges IH];
    intros idx fs order factor sos e Hlen Hfac; cbn [butter_loop];
    [discriminate |].
  cbn in Hlen, Hfac. unfold py_getitem.
  destruct (lookup_lt_is_Some_2 factor idx) as [q Hq]; [lia |].
  rewrite Hq. cbn [mbind outcome_bind].
  destruct (butter order _ _) as [e' | s] eqn:Hs; cbn [call mbind outcome_bind].
  - intros [= <-]. eauto.
  - rewrite py_setitem_ret by lia. cbn [mbind outcome_bind].
    apply IH; [rewrite length_insert; lia | lia].
Qed.

Lemma spl_loop_raise_inv (x : list npfloat) (factor : list Z)
    (sos : list sos_t) (n : nat) :
  forall (k : nat) (spl : list npfloat) (e : pyexn),
    (k + n <= length spl)%nat -> (k + n <= length factor)%nat ->
    (k + n <= length sos)%nat ->
    spl_loop x factor sos (seq k n) spl = Raise e ->
    (exists q : Z, decimate x q = inl e) \/
    (exists (s : sos_t) (sd : list npfloat), sosfilt s sd = inl e).
Proof.
  induction n as [| n IH]; intros k spl e Hspl Hfac Hsos; cbn [seq spl_loop];
    [discriminate |].
  unfold py_getitem.
  destruct (lookup_lt_is_Some_2 factor k) as [q Hq]; [lia |].
  destruct (lookup_lt_is_Some_2 sos k) as [s Hs]; [lia |].
  rewrite Hq. cbn [mbind outcome_bind].
  destruct (decimate x q) as [e' | sd] eqn:Hsd; cbn [call mbind outcome_bind].
  { intros [= <-]. left. eauto. }
  rewrite Hs. cbn [mbind outcome_bind].
  destruct (sosfilt s sd) as [e' | y] eqn:Hy; cbn [call mbind outcome_bind].
  { intros [= <-]. right. eauto. }
  rewrite py_setitem_ret by lia. cbn [mbind outcome_bind].
  apply IH; [rewrite length_insert; lia | lia | lia].
Qed.

End PipelineErrorSources.

(** A signal too short for [signal.decimate]: its error is the one
    raised. *)
Lemma octaveFilter_empty_signal_raises :
  @octaveFilter passthrough_lib 1 [] 44100 1 6 (Some (1000, 1000))
  = Raise ValueError.
Proof.
  unfold octaveFilter, _typesignal. cbv zeta.
  cbn [default from_option]. unfold Datatypes.id.
  rewrite genfreqs_reference_bands. cbn [mbind outcome_bind].
  set (freq_u := [Fin (1000 * band_edge 1); Fin (G * 1000 * band_edge 1)]).
  pose proof (length_downsamplingfactor freq_u 44100) as Hlen.
  destruct (_downsamplingfactor freq_u 44100) as [| q0 [| q1 [| q2 factor]]];
    try discriminate.
  reflexivity.
Qed.

